(** * Terraform resource extraction: a shallow embedding of
    [terraform_parser_openai.py]

    The development embeds [TerraformParser.parse_terraform_file] and the
    scanning part of [analyze_terraform_project] (the statements after the
    agent, task and crew objects are built), and proves the properties the
    specification states about them.

    Text is a [string]; a character stands for a code point below 256.
    The two regular expressions of the parser are embedded as values of a
    small pattern type and run by a backtracking matcher that follows the
    order in which Python's [re] module tries alternatives: a repetition is
    greedy and gives characters back one at a time, the leftmost position
    wins, and [finditer] resumes at the end of the previous match. *)

From Stdlib Require Import Ascii String ZArith Lia.
From stdpp Require Import gmap strings list.

#[local] Arguments String.append : simpl nomatch.

(** ** Characters and text *)

Definition dquote : ascii := "034"%char.
Definition slash : ascii := "/"%char.
Definition rbrace : ascii := "}"%char.

(** One character as a string, and a string between double quotes. *)
Definition chr (c : ascii) : string := String c EmptyString.
Definition quoted (s : string) : string := chr dquote +:+ s +:+ chr dquote.

(** [\s] of a [str] pattern: the code points for which [str.isspace] holds,
    here those below 256. *)
Definition is_space (c : ascii) : bool :=
  let n := nat_of_ascii c in
  ((9 <=? n) && (n <=? 13)) || ((28 <=? n) && (n <=? 32))
  || (n =? 133) || (n =? 160).

(** The classes of every character but the double quote, and of every
    character but the closing brace. *)
Definition not_dquote (c : ascii) : bool := negb (Ascii.eqb c dquote).
Definition not_rbrace (c : ascii) : bool := negb (Ascii.eqb c rbrace).

(** Every character of [s] satisfies [p]. *)
Fixpoint all_chars (p : ascii -> bool) (s : string) : bool :=
  match s with
  | EmptyString => true
  | String c s' => p c && all_chars p s'
  end.

Definition nonempty (s : string) : bool :=
  match s with EmptyString => false | String _ _ => true end.

Fixpoint last_char (s : string) : option ascii :=
  match s with
  | EmptyString => None
  | String c EmptyString => Some c
  | String _ s' => last_char s'
  end.

(** [strip_prefix l s] is the rest of [s] after the literal [l], when [s]
    starts with [l]. *)
Fixpoint strip_prefix (l s : string) : option string :=
  match l with
  | EmptyString => Some s
  | String a l' =>
      match s with
      | EmptyString => None
      | String b s' => if Ascii.eqb a b then strip_prefix l' s' else None
      end
  end.

(** ** The fragment of [re] the parser uses *)

Inductive item : Type :=
| Lit (l : string)            (* literal text *)
| Star (p : ascii -> bool)    (* [cls*], greedy *)
| Plus (p : ascii -> bool)    (* [cls+], greedy *)
| Group (p : ascii -> bool).  (* [(cls+)], greedy, capturing *)

Definition regex := list item.

(** [greedy p k s]: consume as many characters of class [p] as there are,
    then run the rest of the pattern [k]; when [k] fails, give one character
    back and try again. The result holds the text the repetition took. *)
Fixpoint greedy {R : Type} (p : ascii -> bool) (k : string -> option R)
    (s : string) : option (string * R) :=
  match s with
  | String c s' =>
      if p c then
        match greedy p k s' with
        | Some (m, r) => Some (String c m, r)
        | None => option_map (pair EmptyString) (k s)
        end
      else option_map (pair EmptyString) (k s)
  | EmptyString => option_map (pair EmptyString) (k s)
  end.

(** One character of the class is required before the greedy part. *)
Definition greedy1 {R : Type} (p : ascii -> bool) (k : string -> option R)
    (s : string) : option (string * R) :=
  match s with
  | String c s' =>
      if p c then
        match greedy p k s' with
        | Some (m, r) => Some (String c m, r)
        | None => None
        end
      else None
  | EmptyString => None
  end.

(** [run pat s]: match [pat] at the start of [s]. The result is the matched
    text (group 0) and the captured groups, in order. *)
Fixpoint run (pat : regex) (s : string) : option (string * list string) :=
  match pat with
  | [] => Some (EmptyString, [])
  | Lit l :: pat' =>
      match strip_prefix l s with
      | Some s' =>
          match run pat' s' with
          | Some (m, g) => Some (l +:+ m, g)
          | None => None
          end
      | None => None
      end
  | Star p :: pat' =>
      match greedy p (run pat') s with
      | Some (w, (m, g)) => Some (w +:+ m, g)
      | None => None
      end
  | Plus p :: pat' =>
      match greedy1 p (run pat') s with
      | Some (w, (m, g)) => Some (w +:+ m, g)
      | None => None
      end
  | Group p :: pat' =>
      match greedy1 p (run pat') s with
      | Some (w, (m, g)) => Some (w +:+ m, w :: g)
      | None => None
      end
  end.

(** A match object: where it starts, the text it covers, its groups. *)
Record match_obj : Type := Match {
  m_start : nat;
  m_text : string;
  m_groups : list string
}.

Definition m_end (m : match_obj) : nat := m_start m + String.length (m_text m).

(** [re.finditer]: the matches from left to right, none overlapping another.
    [pos] is the offset of [s] in the text and [skip] the number of
    characters still covered by the previous match. The search is tried at
    every offset, the end of the text included. After a match of an empty
    text the scan moves one character on; the two patterns of the parser
    never match an empty text ([matches_are_nonempty] below). *)
Fixpoint finditer_from (pat : regex) (pos skip : nat) (s : string)
    : list match_obj :=
  match skip with
  | S n =>
      match s with
      | String _ s' => finditer_from pat (S pos) n s'
      | EmptyString => []
      end
  | O =>
      match run pat s with
      | Some (m, g) =>
          Match pos m g ::
            match s with
            | String _ s' =>
                finditer_from pat (S pos) (pred (String.length m)) s'
            | EmptyString => []
            end
      | None =>
          match s with
          | String _ s' => finditer_from pat (S pos) 0 s'
          | EmptyString => []
          end
      end
  end.

Definition finditer (pat : regex) (s : string) : list match_obj :=
  finditer_from pat 0 0 s.

(** The resource pattern: the keyword [resource], white space, a quoted
    token (group 1), white space, a quoted token (group 2). A quoted token
    is a double quote, one or more characters that are not a double quote,
    and a double quote. *)
Definition resource_pattern : regex :=
  [ Lit "resource"; Plus is_space;
    Lit (chr dquote); Group not_dquote; Lit (chr dquote); Plus is_space;
    Lit (chr dquote); Group not_dquote; Lit (chr dquote) ].

(** The end of the module pattern: the word [source], white space, [=],
    white space, a quoted token (group 2 of the module pattern). *)
Definition source_pattern : regex :=
  [ Lit "source"; Plus is_space; Lit "="; Plus is_space;
    Lit (chr dquote); Group not_dquote; Lit (chr dquote) ].

(** The module pattern: the keyword [module], white space, a quoted token
    (group 1), white space, an opening brace, any run of characters that
    are not a closing brace, then the source assignment above. *)
Definition module_pattern : regex :=
  [ Lit "module"; Plus is_space;
    Lit (chr dquote); Group not_dquote; Lit (chr dquote); Plus is_space;
    Lit "{"; Star not_rbrace ] ++ source_pattern.

(** ** Python values the parser handles *)

(** The exceptions the body of the parser can meet. Each is an instance of
    [Exception]; [exn_msg] is [str(e)]. *)
Inductive exn : Type :=
| OSError (msg : string)
| UnicodeDecodeError (msg : string)
| IndexError (msg : string).

Definition exn_msg (e : exn) : string :=
  match e with
  | OSError msg | UnicodeDecodeError msg | IndexError msg => msg
  end.

(** [match.group(n)]: group 0 is the whole match; a group the pattern does
    not have raises. *)
Definition group (m : match_obj) (n : nat) : exn + string :=
  match n with
  | O => inr (m_text m)
  | S i =>
      match m_groups m !! i with
      | Some g => inr g
      | None => inl (IndexError "no such group")
      end
  end.

(** [s.split(sep)] for a separator of one character: the pieces between
    the separators, empty pieces included. *)
Fixpoint split (sep : ascii) (s : string) : list string :=
  match s with
  | EmptyString => [EmptyString]
  | String c s' =>
      if Ascii.eqb c sep then EmptyString :: split sep s'
      else
        match split sep s' with
        | piece :: pieces => String c piece :: pieces
        | [] => [chr c]
        end
  end.

(** [l[i]] with Python's negative indices; out of range raises. *)
Definition index (l : list string) (i : Z) : exn + string :=
  let n := Z.of_nat (length l) in
  let j := (if i <? 0 then i + n else i)%Z in
  if ((0 <=? j) && (j <? n))%Z then
    match l !! Z.to_nat j with
    | Some x => inr x
    | None => inl (IndexError "list index out of range")
    end
  else inl (IndexError "list index out of range").

(** The pydantic model [TerraformResource]. *)
Record TerraformResource : Type := {
  resource_type : string;
  resource_name : string;
  resource_id : string;
  file_path : string;
  is_module : bool;
  module_source : option string
}.

(** The pydantic model [TerraformProjectResources]. *)
Record TerraformProjectResources : Type := {
  resources : list TerraformResource;
  resource_count : nat;
  resource_types : gmap string nat
}.

(** ** Statements that fill the list [resources] and may raise *)

(** A computation gets the list built so far and gives it back, with its
    result or the exception raised. The list survives an exception, as the
    Python list does. *)
Definition M (A : Type) : Type :=
  list TerraformResource -> list TerraformResource * (exn + A).

Definition ret {A : Type} (a : A) : M A := fun rs => (rs, inr a).

Definition bind {A B : Type} (c : M A) (f : A -> M B) : M B :=
  fun rs =>
    match c rs with
    | (rs', inr a) => f a rs'
    | (rs', inl e) => (rs', inl e)
    end.

(** An expression that may raise. *)
Definition lift {A : Type} (r : exn + A) : M A := fun rs => (rs, r).

(** [resources.append(r)] *)
Definition append (r : TerraformResource) : M unit :=
  fun rs => (rs ++ [r], inr tt).

Notation "x <- c ;; k" := (bind c (fun x => k))
  (at level 100, c at next level, right associativity).
Notation "c ;;; k" := (bind c (fun _ => k))
  (at level 100, right associativity).

(** [for x in xs: body] *)
Fixpoint for_each {A : Type} (xs : list A) (body : A -> M unit) : M unit :=
  match xs with
  | [] => ret tt
  | x :: xs' => body x ;;; for_each xs' body
  end.

(** ** The world outside: files and [glob] *)

(** [read_text path] is the result of opening the file in text mode and
    reading it; [glob_paths pat] is the list [glob.glob(pat, recursive=True)]
    returns. *)
Record World : Type := {
  read_text : string -> exn + string;
  glob_paths : string -> list string
}.

(** [os.path.join] of two components on a POSIX system. *)
Definition path_join (a b : string) : string :=
  match b with
  | String "/" _ => b
  | _ =>
      match last_char a with
      | None | Some "/"%char => a +:+ b
      | Some _ => a +:+ "/" +:+ b
      end
  end.

(** ** [TerraformParser.parse_terraform_file] *)

(** The source parts and the module type of lines 69 and 70. *)
Definition source_parts (module_source : string) : list string :=
  split slash module_source.

Definition module_type (module_source : string) : M string :=
  let parts := source_parts module_source in
  if 2 <=? length parts then lift (index parts (-2)) else ret module_source.

(** The first loop body, lines 45 to 56. *)
Definition add_resource (file_path : string) (m : match_obj) : M unit :=
  resource_type <- lift (group m 1) ;;
  resource_name <- lift (group m 2) ;;
  let resource_id := resource_type +:+ "." +:+ resource_name in
  append {| resource_type := resource_type;
            resource_name := resource_name;
            resource_id := resource_id;
            file_path := file_path;
            is_module := false;
            module_source := None |}.

(** The second loop body, lines 63 to 79. *)
Definition add_module (file_path : string) (m : match_obj) : M unit :=
  module_name <- lift (group m 1) ;;
  module_source <- lift (group m 2) ;;
  module_type <- module_type module_source ;;
  append {| resource_type := module_type;
            resource_name := module_name;
            resource_id := "module." +:+ module_name;
            file_path := file_path;
            is_module := true;
            module_source := Some module_source |}.

(** The body of the [try] block. *)
Definition parse_body (w : World) (file_path : string) : M unit :=
  content <- lift (read_text w file_path) ;;
  for_each (finditer resource_pattern content) (add_resource file_path) ;;;
  for_each (finditer module_pattern content) (add_module file_path).

(** The whole function: [resources] starts empty, an exception of the body
    is printed and swallowed, and the list is returned in both cases.
    [stdout] is the list of lines printed so far. *)
Definition parse_terraform_file (w : World) (file_path : string)
    (stdout : list string) : list TerraformResource * list string :=
  match parse_body w file_path [] with
  | (resources, inr _) => (resources, stdout)
  | (resources, inl e) =>
      (resources,
       stdout ++ ["Error parsing file " +:+ file_path +:+ ": " +:+ exn_msg e])
  end.

(** ** The scan of [analyze_terraform_project] *)

(** The function first builds the language model client, the agent, the
    task and the crew, which the scan does not use; the embedding starts
    where [all_resources] is set to the empty list. *)

(** The files found, lines 183 and 184. *)
Definition terraform_files (w : World) (terraform_directory : string)
    : list string :=
  flat_map
    (fun extension =>
       glob_paths w (path_join (path_join terraform_directory "**") extension))
    ["*.tf"; "*.tf.json"].

(** The loop over the files, lines 187 to 189. *)
Fixpoint parse_files (w : World) (files : list string)
    (all_resources : list TerraformResource) (stdout : list string)
    : list TerraformResource * list string :=
  match files with
  | [] => (all_resources, stdout)
  | tf_file :: files' =>
      let '(resources, stdout') := parse_terraform_file w tf_file stdout in
      parse_files w files' (all_resources ++ resources) stdout'
  end.

(** The statistics, lines 192 to 197. *)
Definition count_type (resource_types : gmap string nat)
    (resource : TerraformResource) : gmap string nat :=
  match resource_types !! resource_type resource with
  | Some n => <[resource_type resource := n + 1]> resource_types
  | None => <[resource_type resource := 1]> resource_types
  end.

Definition count_by_type (all_resources : list TerraformResource)
    : gmap string nat :=
  foldl count_type ∅ all_resources.

(** What the scan gives: the result object [project_resources], the set
    of type names (the function returns its elements as a list, in the
    order the set happens to have), and the lines printed. *)
Record Analysis : Type := {
  project_resources : TerraformProjectResources;
  returned_types : gset string;
  printed : list string
}.

Definition analyze_terraform_project (w : World)
    (terraform_directory : string) (stdout : list string) : Analysis :=
  let '(all_resources, stdout') :=
    parse_files w (terraform_files w terraform_directory) [] stdout in
  let project_resources :=
    {| resources := all_resources;
       resource_count := length all_resources;
       resource_types := count_by_type all_resources |} in
  {| project_resources := project_resources;
     returned_types :=
       list_to_set (map resource_type (resources project_resources));
     printed := stdout' |}.

(** ** Notions the statements use *)

(** What a match of a pattern looks like: [shape pat m g] holds when the
    text [m] is made of the pieces [pat] lists, with [g] the text of its
    groups. *)
Fixpoint shape (pat : regex) (m : string) (g : list string) : Prop :=
  match pat with
  | [] => m = EmptyString /\ g = []
  | Lit l :: pat' => exists m', m = l +:+ m' /\ shape pat' m' g
  | Star p :: pat' =>
      exists w m', all_chars p w = true /\ m = w +:+ m' /\ shape pat' m' g
  | Plus p :: pat' =>
      exists w m', nonempty w = true /\ all_chars p w = true /\
                   m = w +:+ m' /\ shape pat' m' g
  | Group p :: pat' =>
      exists w m' g', nonempty w = true /\ all_chars p w = true /\
                      m = w +:+ m' /\ g = w :: g' /\ shape pat' m' g'
  end.

(** The text [s] does not go on with a character of class [p]. *)
Definition stops (p : ascii -> bool) (s : string) : bool :=
  match s with
  | EmptyString => true
  | String c _ => negb (p c)
  end.

(** Remove the leading characters of class [p]. *)
Fixpoint drop_while (p : ascii -> bool) (s : string) : string :=
  match s with
  | EmptyString => EmptyString
  | String c s' => if p c then drop_while p s' else s
  end.

(** White space with at least one character; a token that can stand
    between double quotes. *)
Definition spaces (ws : string) : bool := nonempty ws && all_chars is_space ws.
Definition token (t : string) : bool := nonempty t && all_chars not_dquote t.

(** The header of a resource declaration and of a module declaration up to
    the end of its source assignment. *)
Definition resource_decl (ws1 T ws2 N : string) : string :=
  "resource" +:+ ws1 +:+ quoted T +:+ ws2 +:+ quoted N.

Definition source_assignment (ws4 ws5 src : string) : string :=
  "source" +:+ ws4 +:+ "=" +:+ ws5 +:+ quoted src.

Definition module_decl (ws1 N ws2 body ws4 ws5 src : string) : string :=
  "module" +:+ ws1 +:+ quoted N +:+ ws2 +:+ "{" +:+ body
  +:+ source_assignment ws4 ws5 src.

(** The record the first loop builds from a match, and the record the
    second loop builds, written without the exceptions. *)
Definition resource_record (file_path : string) (m : match_obj)
    : TerraformResource :=
  let T := default EmptyString (m_groups m !! 0) in
  let N := default EmptyString (m_groups m !! 1) in
  {| resource_type := T; resource_name := N;
     resource_id := T +:+ "." +:+ N; file_path := file_path;
     is_module := false; module_source := None |}.

(** The normalization rule in the words of the specification: split the
    raw source on the slash; with two pieces or more, the second-to-last
    piece; otherwise the raw source unchanged. The code's own version is
    [module_type] above; [module_type_ok] below relates the two. *)
Definition normalized (src : string) : string :=
  let parts := split slash src in
  if 2 <=? length parts
  then default EmptyString (parts !! (length parts - 2))
  else src.

Definition module_record (file_path : string) (m : match_obj)
    : TerraformResource :=
  let N := default EmptyString (m_groups m !! 0) in
  let src := default EmptyString (m_groups m !! 1) in
  {| resource_type := normalized src; resource_name := N;
     resource_id := "module." +:+ N; file_path := file_path;
     is_module := true; module_source := Some src |}.

(** The records of a text. *)
Definition records_of (file_path content : string) : list TerraformResource :=
  map (resource_record file_path) (finditer resource_pattern content)
  ++ map (module_record file_path) (finditer module_pattern content).

(** The records a file contributes and the lines it makes the scan print. *)
Definition file_records (w : World) (f : string) : list TerraformResource :=
  match read_text w f with
  | inr content => records_of f content
  | inl _ => []
  end.

Definition file_errors (w : World) (f : string) : list string :=
  match read_text w f with
  | inr _ => []
  | inl e => ["Error parsing file " +:+ f +:+ ": " +:+ exn_msg e]
  end.

(** Some text after the first character of [s], and before the first
    closing brace, is matched by the source assignment pattern. *)
Fixpoint later_source (s : string) : bool :=
  match s with
  | EmptyString => false
  | String c s' =>
      not_rbrace c
      && (bool_decide (is_Some (run source_pattern s')) || later_source s')
  end.

(** The text goes on with white space and a quoted token. *)
Definition second_token_present (tail : string) : bool :=
  match tail with
  | String c _ =>
      is_space c &&
      match drop_while is_space tail with
      | String d r =>
          Ascii.eqb d dquote &&
          match r with
          | String e _ =>
              not_dquote e && nonempty (drop_while not_dquote r)
          | EmptyString => false
          end
      | EmptyString => false
      end
  | EmptyString => false
  end.

(** The identifier the data model gives a record, from its kind and its
    names. *)
Definition derived_identifier (r : TerraformResource) : string :=
  if is_module r then "module." +:+ resource_name r
  else resource_type r +:+ "." +:+ resource_name r.



Definition no_slash (s : string) : bool :=
  all_chars (fun c => negb (Ascii.eqb c slash)) s.

(** ** Example inputs *)

Definition newline : string := chr "010"%char.

(** A world with the given files and the given answer of [glob] to the
    pattern for [*.tf] under [dir]; nothing matches [*.tf.json]. *)
Definition world_of (dir : string) (files : list (string * string)) : World :=
  {| read_text := fun path =>
       match list_find (fun f => String.eqb (fst f) path = true) files with
       | Some (_, (_, content)) => inr content
       | None => inl (OSError "No such file or directory")
       end;
     glob_paths := fun pat =>
       if String.eqb pat (path_join (path_join dir "**") "*.tf")
       then map fst files else [] |}.

Definition logs_and_vpc : string :=
  "resource " +:+ quoted "aws_s3_bucket" +:+ " " +:+ quoted "logs" +:+ " {}"
  +:+ newline
  +:+ "module " +:+ quoted "vpc" +:+ " { source = "
  +:+ quoted "terraform-aws-modules/vpc/aws" +:+ " }".

Definition data_bucket : string :=
  "resource " +:+ quoted "aws_s3_bucket" +:+ " " +:+ quoted "data" +:+ " {}".

(** Two files that can be read, and one that [glob] lists between them
    but that cannot be opened. *)
Definition world_with_missing : World :=
  {| read_text :=
       read_text (world_of "infra"
                    [("a.tf", logs_and_vpc); ("b.tf", data_bucket)]);
     glob_paths := fun pat =>
       if String.eqb pat "infra/**/*.tf"
       then ["a.tf"; "gone.tf"; "b.tf"] else [] |}.


(** A module with a second argument whose name ends in [source]. *)
Definition module_with_log_source : string :=
  "module " +:+ quoted "m" +:+ " { source = " +:+ quoted "a/b/c"
  +:+ newline +:+ "  log_source = " +:+ quoted "x/y/z" +:+ " }".

(** A comment with an open quote before a resource declaration. *)
Definition comment_then_resource : string :=
  "# see resource " +:+ quoted "aws_instance" +:+ " " +:+ chr dquote +:+ "web"
  +:+ newline
  +:+ "resource " +:+ quoted "aws_s3_bucket" +:+ " " +:+ quoted "logs"
  +:+ " {}".



(** A module whose own source assignment has no white space around
    [=], with a second argument whose name ends in [source]. *)
Definition unspaced_module_with_log_source : string :=
  "module " +:+ quoted "m" +:+ " { source=" +:+ quoted "a/b/c"
  +:+ newline +:+ "  log_source = " +:+ quoted "x/y/z" +:+ " }".


(** ** The helpers of the two other scripts *)

(** [get_terraform_files], the same function in the crew script and in
    the prompt script. *)
Definition get_terraform_files (w : World) (directory_path : string)
    : list string :=
  flat_map
    (fun extension =>
       glob_paths w (path_join (path_join directory_path "**") extension))
    ["*.tf"; "*.tf.json"].

(** A dict from paths to contents, as the list of its items in the order
    of insertion. [d[k] = v] keeps the place of a key that is there and
    puts a new key last. *)
Fixpoint dict_set (k v : string) (d : list (string * string))
    : list (string * string) :=
  match d with
  | [] => [(k, v)]
  | (k', v') :: d' =>
      if String.eqb k' k then (k', v) :: d' else (k', v') :: dict_set k v d'
  end.

Fixpoint dict_get (k : string) (d : list (string * string)) : option string :=
  match d with
  | [] => None
  | (k', v') :: d' => if String.eqb k' k then Some v' else dict_get k d'
  end.

(** The loop of [read_file_contents], the same function in both scripts:
    a file that is read is stored under its path, a file that is not is
    printed and left out. *)
Fixpoint read_files (w : World) (file_paths : list string)
    (file_contents : list (string * string)) (stdout : list string)
    : list (string * string) * list string :=
  match file_paths with
  | [] => (file_contents, stdout)
  | file_path :: file_paths' =>
      match read_text w file_path with
      | inr content =>
          read_files w file_paths' (dict_set file_path content file_contents)
                     stdout
      | inl e =>
          read_files w file_paths' file_contents
            (stdout
             ++ ["Error reading file " +:+ file_path +:+ ": " +:+ exn_msg e])
      end
  end.

Definition read_file_contents (w : World) (file_paths : list string)
    (stdout : list string) : list (string * string) * list string :=
  read_files w file_paths [] stdout.

(** The text both scripts add to what they send for each item of the
    dict: a new line, a header line with the path, the content, and a new
    line. *)
Definition file_block (file_path content : string) : string :=
  newline +:+ "--- File: " +:+ file_path +:+ " ---" +:+ newline
  +:+ content +:+ newline.

(** The loop over [file_contents.items()], which adds the blocks to the
    text built so far: the empty text for [terraform_code] in the crew
    script, the instructions for [prompt] in the prompt script. *)
Fixpoint add_file_blocks (text : string) (items : list (string * string))
    : string :=
  match items with
  | [] => text
  | (file_path, content) :: items' =>
      add_file_blocks (text +:+ file_block file_path content) items'
  end.

(** ** The reply of the crew, [analyze_terraform_with_crew] lines 121 to 158 *)

(** A value [json.loads] can give. *)
#[local] Unset Elimination Schemes.
Inductive value : Type :=
| VNull
| VBool (b : bool)
| VNumber (repr : string)
| VStr (s : string)
| VList (l : list value)
| VDict (d : list (string * value)).
#[local] Set Elimination Schemes.

(** The two library calls on the reply, which are not part of the
    scripts. [model_validate_json] gives the field [resources] of the
    validated model, or the text of the exception; [json_loads] is called
    on a text that starts with an opening brace, so that what it gives,
    when it gives something, is a dict, here the list of its items. *)
Record Library : Type := {
  model_validate_json : string -> string + list string;
  json_loads : string -> string + list (string * value)
}.

Fixpoint items_get (k : string) (d : list (string * value)) : option value :=
  match d with
  | [] => None
  | (k', v) :: d' => if String.eqb k' k then Some v else items_get k d'
  end.

Definition lbrace : ascii := "{"%char.
Definition lbracket : ascii := "["%char.
Definition rbracket : ascii := "]"%char.
Definition comma : ascii := ","%char.
Definition apostrophe : ascii := "'"%char.

Definition not_brace (c : ascii) : bool :=
  negb (Ascii.eqb c lbrace) && negb (Ascii.eqb c rbrace).
Definition not_newline (c : ascii) : bool := negb (Ascii.eqb c "010"%char).

(** The pattern for a JSON object with no object inside: an opening brace,
    any run of characters that are not braces, a closing brace. *)
Definition json_pattern : regex :=
  [ Lit (chr lbrace); Star not_brace; Lit (chr rbrace) ].

(** [lazy p k s]: a repetition that takes as few characters as it can: try
    the rest of the pattern [k] first, and take one more character of the
    class [p] each time [k] fails. *)
Fixpoint lazy {R : Type} (p : ascii -> bool) (k : string -> option R)
    (s : string) : option (string * R) :=
  match k s with
  | Some r => Some (EmptyString, r)
  | None =>
      match s with
      | String c s' =>
          if p c then
            match lazy p k s' with
            | Some (m, r) => Some (String c m, r)
            | None => None
            end
          else None
      | EmptyString => None
      end
  end.

(** The array pattern at the start of [s]: an opening bracket, as few
    characters of one line as can be (group 1), a closing bracket. *)
Definition run_array (s : string) : option (string * list string) :=
  match strip_prefix (chr lbracket) s with
  | Some s1 =>
      match lazy not_newline (strip_prefix (chr rbracket)) s1 with
      | Some (g, _) => Some (chr lbracket +:+ g +:+ chr rbracket, [g])
      | None => None
      end
  | None => None
  end.

(** [re.search]: the match at the leftmost offset where there is one. *)
Fixpoint search_from (matcher : string -> option (string * list string))
    (pos : nat) (s : string) : option match_obj :=
  match matcher s with
  | Some (m, g) => Some (Match pos m g)
  | None =>
      match s with
      | String _ s' => search_from matcher (S pos) s'
      | EmptyString => None
      end
  end.

Definition re_search (matcher : string -> option (string * list string))
    (s : string) : option match_obj :=
  search_from matcher 0 s.

(** [s.strip(chars)]: [s] without the characters of the class at its two
    ends. *)
Fixpoint rstrip (p : ascii -> bool) (s : string) : string :=
  match s with
  | EmptyString => EmptyString
  | String c s' =>
      match rstrip p s' with
      | EmptyString => if p c then EmptyString else chr c
      | t => String c t
      end
  end.

Definition strip (p : ascii -> bool) (s : string) : string :=
  rstrip p (drop_while p s).

(** The characters of the argument of [strip] on line 150: the space, the
    double quote and the apostrophe. *)
Definition strip_chars (c : ascii) : bool :=
  Ascii.eqb c " "%char || Ascii.eqb c dquote || Ascii.eqb c apostrophe.

(** The second [try], lines 133 to 140: the value under [resources] of the
    first flat JSON object of the reply, when there is one and it loads
    and has the key. *)
Definition resources_of_object (lib : Library) (result : string)
    : option value :=
  match re_search (run json_pattern) result with
  | Some json_match =>
      match group json_match 0 with
      | inr text =>
          match json_loads lib text with
          | inr json_dict => items_get "resources" json_dict
          | inl _ => None
          end
      | inl _ => None
      end
  | None => None
  end.

(** The last resort, lines 143 to 154: the items of the first bracketed
    text of the reply, split at the commas and stripped. *)
Definition items_of_array (result : string) : option (list string) :=
  match re_search run_array result with
  | Some array_match =>
      match group array_match 1 with
      | inr array_content =>
          Some (map (strip strip_chars) (split comma array_content))
      | inl _ => None
      end
  | None => None
  end.

(** What the function returns for a reply, and what it prints. *)
Definition parse_crew_result (lib : Library) (result : string)
    (stdout : list string) : value * list string :=
  match model_validate_json lib result with
  | inr resources => (VList (map VStr resources), stdout)
  | inl e =>
      match resources_of_object lib result with
      | Some v => (v, stdout)
      | None =>
          match items_of_array result with
          | Some items => (VList (map VStr items), stdout)
          | None =>
              (VList [],
               stdout ++ ["Failed to parse result: " +:+ e;
                          "Raw result: " +:+ result])
          end
      end
  end.

(** The number of records of a type. *)
Definition records_of_type (t : string) (rs : list TerraformResource) : nat :=
  length (filter (fun r => resource_type r = t) rs).

(** An item list written as the content of an array: the items between
    double quotes, with a comma and a space between them. *)
Fixpoint render_items (items : list string) : string :=
  match items with
  | [] => EmptyString
  | [x] => quoted x
  | x :: items' => quoted x +:+ ", " +:+ render_items items'
  end.

(** A text that neither starts nor ends with a character of the class. *)
Definition stripped (p : ascii -> bool) (s : string) : bool :=
  stops p s && match last_char s with Some c => negb (p c) | None => true end.

(** Two files with one declaration each, listed by [glob] in one order
    and in the other. *)
Definition world_ab : World :=
  world_of "infra" [("a.tf", logs_and_vpc); ("b.tf", data_bucket)].
Definition world_ba : World :=
  {| read_text := read_text world_ab;
     glob_paths := fun pat =>
       if String.eqb pat "infra/**/*.tf" then ["b.tf"; "a.tf"] else [] |}.

(** The items and the printed lines [read_file_contents] gives for paths
    that are all different, and the blocks of these items, one after the
    other. *)
Definition readable_items (w : World) (paths : list string)
    : list (string * string) :=
  flat_map (fun p => match read_text w p with
                     | inr content => [(p, content)]
                     | inl _ => []
                     end) paths.

Definition read_errors (w : World) (paths : list string) : list string :=
  flat_map (fun p => match read_text w p with
                     | inr _ => []
                     | inl e =>
                         ["Error reading file " +:+ p +:+ ": " +:+ exn_msg e]
                     end) paths.

Fixpoint blocks_of (items : list (string * string)) : string :=
  match items with
  | [] => EmptyString
  | (p, content) :: items' => file_block p content +:+ blocks_of items'
  end.

(** An item that comes back unchanged from the last resort: no comma, no
    closing bracket and no new line in it, and neither a space nor a quote
    at its two ends. *)
Definition plain_char (c : ascii) : bool :=
  not_newline c && negb (Ascii.eqb c rbracket) && negb (Ascii.eqb c comma).

Definition plain_item (x : string) : bool :=
  all_chars plain_char x && stripped strip_chars x.

(** A library whose two calls fail on every text. *)
Definition failing_library : Library :=
  {| model_validate_json := fun _ => inl "Invalid JSON";
     json_loads := fun _ => inl "Expecting value" |}.

(** A library whose validation fails and whose [json.loads] gives a dict
    with a number under [resources]. *)
Definition number_library : Library :=
  {| model_validate_json := fun _ => inl "Invalid JSON";
     json_loads := fun _ => inr [("resources", VNumber "3")] |}.

(** ** Text lemmas *)

Section Text.
Implicit Types (s t u v : string) (c : ascii) (p : ascii -> bool).

Lemma text_app_nil_r s : s +:+ EmptyString = s.
Proof. induction s; simpl; congruence. Qed.

Lemma text_app_assoc s t u : (s +:+ t) +:+ u = s +:+ (t +:+ u).
Proof. induction s; simpl; congruence. Qed.

Lemma text_length_app s t :
  String.length (s +:+ t) = String.length s + String.length t.
Proof. induction s; simpl; congruence. Qed.

Lemma all_chars_app p s t :
  all_chars p (s +:+ t) = all_chars p s && all_chars p t.
Proof.
  induction s as [|c s IH]; simpl; [done|].
  rewrite IH. by destruct (p c).
Qed.

Lemma all_chars_impl p1 p2 s :
  (forall c, p1 c = true -> p2 c = true) ->
  all_chars p1 s = true -> all_chars p2 s = true.
Proof.
  intros Himp. induction s as [|c s IH]; simpl; [done|].
  intros [Hc Hs]%andb_prop. rewrite (Himp c Hc). simpl. auto.
Qed.

Lemma strip_prefix_app l s : strip_prefix l (l +:+ s) = Some s.
Proof.
  induction l as [|a l IH]; simpl; [done|].
  by rewrite Ascii.eqb_refl.
Qed.

Lemma strip_prefix_Some l s r : strip_prefix l s = Some r -> s = l +:+ r.
Proof.
  revert s. induction l as [|a l IH]; intros s; simpl.
  - congruence.
  - destruct s as [|b s]; [done|].
    destruct (Ascii.eqb a b) eqn:Hab; [|done].
    apply Ascii.eqb_eq in Hab as ->. intros ->%IH. done.
Qed.

(** Two ways to cut the same text at a first character outside a class
    agree. *)
Lemma app_eq_first p u1 u2 c1 c2 s1 s2 :
  all_chars p u1 = true -> all_chars p u2 = true ->
  p c1 = false -> p c2 = false ->
  u1 +:+ String c1 s1 = u2 +:+ String c2 s2 ->
  u1 = u2 /\ c1 = c2 /\ s1 = s2.
Proof.
  revert u2. induction u1 as [|a u1 IH]; intros [|b u2]; simpl;
    intros H1 H2 Hc1 Hc2 Heq.
  - by simplify_eq.
  - simplify_eq. apply andb_prop in H2 as [? _]. congruence.
  - simplify_eq. apply andb_prop in H1 as [? _]. congruence.
  - simplify_eq.
    apply andb_prop in H1 as [_ H1]. apply andb_prop in H2 as [_ H2].
    destruct (IH u2 H1 H2 Hc1 Hc2) as (-> & -> & ->); done.
Qed.

(** A text cut at a given length in two ways. *)
Lemma app_eq_length u1 u2 s1 s2 :
  String.length u1 = String.length u2 ->
  u1 +:+ s1 = u2 +:+ s2 -> u1 = u2 /\ s1 = s2.
Proof.
  revert u2. induction u1 as [|a u1 IH]; intros [|b u2]; simpl;
    intros Hlen Heq; try done.
  simplify_eq. destruct (IH u2) as [-> ->]; auto.
Qed.

Lemma drop_while_app p u s :
  all_chars p u = true -> stops p s = true ->
  drop_while p (u +:+ s) = s.
Proof.
  intros Hu Hs. induction u as [|a u IH]; simpl in *.
  - destruct s as [|c s]; [done|]. simpl in *.
    destruct (p c); simpl in *; congruence.
  - apply andb_prop in Hu as [-> Hu]. auto.
Qed.
End Text.

(** ** The matcher *)

Section Matcher.
Context {R : Type}.
Implicit Types (p : ascii -> bool) (k : string -> option R).

(** What a repetition returns is a run of the class, and the rest of the
    pattern matched what follows it. *)
Lemma greedy_sound p k s w r :
  greedy p k s = Some (w, r) ->
  all_chars p w = true /\ exists s', s = w +:+ s' /\ k s' = Some r.
Proof.
  revert w r. induction s as [|c s IH]; intros w r; simpl.
  - destruct (k EmptyString) eqn:Hk; simpl; [|done].
    intros [= <- <-]. split; [done|]. by exists EmptyString.
  - assert (option_map (pair EmptyString) (k (String c s)) = Some (w, r) ->
            all_chars p w = true /\
            exists s', String c s = w +:+ s' /\ k s' = Some r) as Hk.
    { destruct (k (String c s)) eqn:Hk; simpl; [|done].
      intros [= <- <-]. split; [done|]. by exists (String c s). }
    destruct (p c) eqn:Hc; [|done].
    destruct (greedy p k s) as [[m r']|] eqn:Hg; [|done].
    intros [= <- <-]. destruct (IH _ _ eq_refl) as (Hm & s' & -> & Hs').
    simpl. rewrite Hc, Hm. split; [done|]. by exists s'.
Qed.

Lemma greedy1_sound p k s w r :
  greedy1 p k s = Some (w, r) ->
  nonempty w = true /\ all_chars p w = true /\
  exists s', s = w +:+ s' /\ k s' = Some r.
Proof.
  destruct s as [|c s]; simpl; [done|].
  destruct (p c) eqn:Hc; [|done].
  destruct (greedy p k s) as [[m r']|] eqn:Hg; [|done].
  intros [= <- <-]. apply greedy_sound in Hg as (Hm & s' & -> & Hs').
  simpl. rewrite Hc, Hm. repeat split; [done..|]. by exists s'.
Qed.

(** When the rest of the pattern fails after every longer run, the
    repetition takes nothing. *)
Lemma greedy_nothing p k s :
  (forall x y, s = x +:+ y -> nonempty x = true -> all_chars p x = true ->
               k y = None) ->
  greedy p k s = option_map (pair EmptyString) (k s).
Proof.
  induction s as [|c s IH]; intros Hlater; simpl; [done|].
  destruct (p c) eqn:Hc; [|done].
  rewrite IH.
  - rewrite (Hlater (chr c) s); simpl; [done..|]. by rewrite Hc.
  - intros x y -> Hx Hpx. apply (Hlater (String c x) y); simpl; [done..|].
    by rewrite Hc, Hpx.
Qed.

(** The repetition takes the run [w] when the rest of the pattern matches
    after it and fails after every longer run. *)
Lemma greedy_last p k w s r :
  all_chars p w = true -> k s = Some r ->
  (forall x y, s = x +:+ y -> nonempty x = true -> all_chars p x = true ->
               k y = None) ->
  greedy p k (w +:+ s) = Some (w, r).
Proof.
  intros Hw Hk Hlater. induction w as [|a w IH]; simpl in *.
  - by rewrite greedy_nothing, Hk.
  - apply andb_prop in Hw as [-> Hw]. by rewrite IH.
Qed.

Lemma greedy_stop p k w s r :
  all_chars p w = true -> stops p s = true -> k s = Some r ->
  greedy p k (w +:+ s) = Some (w, r).
Proof.
  intros Hw Hs Hk. apply greedy_last; [done..|].
  intros [|a x] y -> Hx Hpx; simpl in *; [done|].
  apply andb_prop in Hpx as [Ha _]. by rewrite Ha in Hs.
Qed.

Lemma greedy1_last p k w s r :
  nonempty w = true -> all_chars p w = true -> k s = Some r ->
  (forall x y, s = x +:+ y -> nonempty x = true -> all_chars p x = true ->
               k y = None) ->
  greedy1 p k (w +:+ s) = Some (w, r).
Proof.
  destruct w as [|a w]; simpl; [done|]. intros _ [-> Hw]%andb_prop Hk Hlater.
  by rewrite (greedy_last p k w s r).
Qed.

Lemma greedy1_stop p k w s r :
  nonempty w = true -> all_chars p w = true -> stops p s = true ->
  k s = Some r -> greedy1 p k (w +:+ s) = Some (w, r).
Proof.
  destruct w as [|a w]; simpl; [done|]. intros _ [-> Hw]%andb_prop Hs Hk.
  by rewrite (greedy_stop p k w s r).
Qed.

(** A repetition of one character or more fails on a text that does not
    start with a character of the class. *)
Lemma greedy1_stops p k s : stops p s = true -> greedy1 p k s = None.
Proof. destruct s as [|c s]; simpl; [done|]. by destruct (p c). Qed.
End Matcher.

(** A match has the shape of its pattern and is a prefix of the text. *)
Lemma run_sound pat s m g :
  run pat s = Some (m, g) -> shape pat m g /\ exists r, s = m +:+ r.
Proof.
  revert s m g. induction pat as [|[l|p|p|p] pat IH]; intros s m g; simpl.
  - intros [= <- <-]. split; [done|]. by exists s.
  - destruct (strip_prefix l s) as [s'|] eqn:Hl; [|done].
    destruct (run pat s') as [[m' g']|] eqn:Hr; [|done].
    intros [= <- <-]. apply strip_prefix_Some in Hl as ->.
    apply IH in Hr as (Hsh & r & ->). split; [by exists m'|].
    exists r. by rewrite text_app_assoc.
  - destruct (greedy p (run pat) s) as [[w [m' g']]|] eqn:Hg; [|done].
    intros [= <- <-]. apply greedy_sound in Hg as (Hw & s' & -> & Hr).
    apply IH in Hr as (Hsh & r & ->). split; [by exists w, m'|].
    exists r. by rewrite text_app_assoc.
  - destruct (greedy1 p (run pat) s) as [[w [m' g']]|] eqn:Hg; [|done].
    intros [= <- <-]. apply greedy1_sound in Hg as (Hne & Hw & s' & -> & Hr).
    apply IH in Hr as (Hsh & r & ->). split; [by exists w, m'|].
    exists r. by rewrite text_app_assoc.
  - destruct (greedy1 p (run pat) s) as [[w [m' g']]|] eqn:Hg; [|done].
    intros [= <- <-]. apply greedy1_sound in Hg as (Hne & Hw & s' & -> & Hr).
    apply IH in Hr as (Hsh & r & ->). split; [by exists w, m', g'|].
    exists r. by rewrite text_app_assoc.
Qed.

(** Every match [finditer] lists is a match of the pattern at its offset,
    and no match starts before the scan does. *)
Lemma finditer_from_sound pat s pos skip m :
  In m (finditer_from pat pos skip s) ->
  exists u v, s = u +:+ v /\ m_start m = pos + String.length u /\
              skip <= String.length u /\
              run pat v = Some (m_text m, m_groups m).
Proof.
  revert pos skip. induction s as [|c s IH]; intros pos skip.
  - destruct skip; simpl; [|done].
    destruct (run pat EmptyString) as [[m' g']|] eqn:Hr; [|done].
    intros [<-|[]]. exists EmptyString, EmptyString. simpl.
    repeat split; [lia|lia|done].
  - assert (forall n, In m (finditer_from pat (S pos) n s) ->
              exists u v, String c s = u +:+ v /\
                m_start m = pos + String.length u /\
                S n <= String.length u /\
                run pat v = Some (m_text m, m_groups m)) as Hnext.
    { intros n (u & v & -> & Hst & Hsk & Hr)%IH. exists (String c u), v.
      simpl. repeat split; [lia|lia|done]. }
    destruct skip as [|n]; simpl.
    + destruct (run pat (String c s)) as [[m' g']|] eqn:Hr.
      * intros [<-|Hin].
        -- exists EmptyString, (String c s). simpl.
           repeat split; [lia|lia|done].
        -- destruct (Hnext _ Hin) as (u & v & ? & ? & ? & ?).
           exists u, v. repeat split; [done|done|lia|done].
      * intros Hin. destruct (Hnext _ Hin) as (u & v & ? & ? & ? & ?).
        exists u, v. repeat split; [done|done|lia|done].
    + intros Hin. destruct (Hnext _ Hin) as (u & v & ? & ? & ? & ?).
      by exists u, v.
Qed.

(** Steps of a match, one per kind of item. *)
Lemma run_lit l pat s m g :
  run pat s = Some (m, g) -> run (Lit l :: pat) (l +:+ s) = Some (l +:+ m, g).
Proof. intros Hr. simpl. by rewrite strip_prefix_app, Hr. Qed.

Lemma run_plus_stop p pat w s m g :
  nonempty w = true -> all_chars p w = true -> stops p s = true ->
  run pat s = Some (m, g) ->
  run (Plus p :: pat) (w +:+ s) = Some (w +:+ m, g).
Proof.
  intros Hne Hw Hs Hr. simpl.
  by rewrite (greedy1_stop p (run pat) w s (m, g)).
Qed.

Lemma run_group_stop p pat w s m g :
  nonempty w = true -> all_chars p w = true -> stops p s = true ->
  run pat s = Some (m, g) ->
  run (Group p :: pat) (w +:+ s) = Some (w +:+ m, w :: g).
Proof.
  intros Hne Hw Hs Hr. simpl.
  by rewrite (greedy1_stop p (run pat) w s (m, g)).
Qed.

Lemma run_star_last p pat w s m g :
  all_chars p w = true -> run pat s = Some (m, g) ->
  (forall x y, s = x +:+ y -> nonempty x = true -> all_chars p x = true ->
               run pat y = None) ->
  run (Star p :: pat) (w +:+ s) = Some (w +:+ m, g).
Proof.
  intros Hw Hr Hlater. simpl.
  by rewrite (greedy_last p (run pat) w s (m, g)).
Qed.

Lemma spaces_spec ws :
  spaces ws = true <-> nonempty ws = true /\ all_chars is_space ws = true.
Proof. unfold spaces. by rewrite andb_true_iff. Qed.

Lemma token_spec t :
  token t = true <-> nonempty t = true /\ all_chars not_dquote t = true.
Proof. unfold token. by rewrite andb_true_iff. Qed.

(** Bring a text to a chain of pieces, nested to the right. *)
Ltac flatten_text :=
  unfold resource_decl, module_decl, source_assignment, quoted;
  rewrite ?text_app_assoc, ?text_app_nil_r.

(** The shape of a match of the resource pattern. *)
Lemma resource_match_shape v m g :
  run resource_pattern v = Some (m, g) ->
  exists w1 T w2 N,
    spaces w1 = true /\ token T = true /\ spaces w2 = true /\
    token N = true /\ m = resource_decl w1 T w2 N /\ g = [T; N] /\
    exists r, v = m +:+ r.
Proof.
  intros [Hsh Hr]%run_sound. simpl in Hsh.
  destruct Hsh as (? & -> & w1 & ? & ? & ? & -> & ? & -> & T & ? & ? & ? & ?
                   & -> & -> & ? & -> & w2 & ? & ? & ? & -> & ? & -> & N & ?
                   & ? & ? & ? & -> & -> & ? & -> & -> & ->).
  exists w1, T, w2, N. rewrite !spaces_spec, !token_spec.
  split_and!; try done.
  flatten_text. reflexivity.
Qed.

(** The shape of a match of the module pattern. *)
Lemma module_match_shape v m g :
  run module_pattern v = Some (m, g) ->
  exists w1 N w2 body w4 w5 src,
    spaces w1 = true /\ token N = true /\ spaces w2 = true /\
    all_chars not_rbrace body = true /\
    spaces w4 = true /\ spaces w5 = true /\ token src = true /\
    m = module_decl w1 N w2 body w4 w5 src /\ g = [N; src] /\
    exists r, v = m +:+ r.
Proof.
  intros [Hsh Hr]%run_sound. simpl in Hsh.
  destruct Hsh as (? & -> & w1 & ? & ? & ? & -> & ? & -> & N & ? & ? & ? & ?
                   & -> & -> & ? & -> & w2 & ? & ? & ? & -> & ? & -> & body
                   & ? & ? & -> & ? & -> & w4 & ? & ? & ? & -> & ? & -> & w5
                   & ? & ? & ? & -> & ? & -> & src & ? & ? & ? & ? & -> & ->
                   & ? & -> & -> & ->).
  exists w1, N, w2, body, w4, w5, src. rewrite !spaces_spec, !token_spec.
  split_and!; try done.
  flatten_text. reflexivity.
Qed.

(** Neither pattern matches an empty text. *)
Lemma matches_are_nonempty v m g :
  run resource_pattern v = Some (m, g) \/ run module_pattern v = Some (m, g) ->
  nonempty m = true.
Proof.
  intros [Hr|Hr].
  - by apply resource_match_shape in Hr
      as (? & ? & ? & ? & _ & _ & _ & _ & -> & _).
  - by apply module_match_shape in Hr
      as (? & ? & ? & ? & ? & ? & ? & _ & _ & _ & _ & _ & _ & _ & -> & _).
Qed.

(** A well-formed resource header is matched as it stands. *)
Lemma run_resource_decl ws1 T ws2 N rest :
  spaces ws1 = true -> token T = true -> spaces ws2 = true ->
  token N = true ->
  run resource_pattern (resource_decl ws1 T ws2 N +:+ rest)
  = Some (resource_decl ws1 T ws2 N, [T; N]).
Proof.
  intros [? ?]%spaces_spec [? ?]%token_spec [? ?]%spaces_spec [? ?]%token_spec.
  transitivity
    (Some ("resource" +:+ ws1 +:+ chr dquote +:+ T +:+ chr dquote +:+ ws2
           +:+ chr dquote +:+ N +:+ chr dquote +:+ EmptyString, [T; N])).
  2: { flatten_text. reflexivity. }
  flatten_text. unfold resource_pattern.
  apply run_lit, run_plus_stop; [done..|].
  apply run_lit, run_group_stop; [done..|].
  apply run_lit, run_plus_stop; [done..|].
  apply run_lit, run_group_stop; [done| done| |].
  - by destruct rest.
  - by apply (run_lit (chr dquote) [] rest EmptyString []).
Qed.

#[local] Arguments run : simpl never.

(** A well-formed source assignment is matched as it stands. *)
Lemma run_source_assignment ws4 ws5 src rest :
  spaces ws4 = true -> spaces ws5 = true -> token src = true ->
  run source_pattern (source_assignment ws4 ws5 src +:+ rest)
  = Some (source_assignment ws4 ws5 src, [src]).
Proof.
  intros [? ?]%spaces_spec [? ?]%spaces_spec [? ?]%token_spec.
  transitivity
    (Some ("source" +:+ ws4 +:+ "=" +:+ ws5 +:+ chr dquote +:+ src
           +:+ chr dquote +:+ EmptyString, [src])).
  2: { flatten_text. reflexivity. }
  flatten_text. unfold source_pattern.
  apply run_lit, run_plus_stop; [done..|].
  apply run_lit, run_plus_stop; [done..|].
  apply run_lit, run_group_stop; [done| done| |].
  - by destruct rest.
  - by apply (run_lit (chr dquote) [] rest EmptyString []).
Qed.

(** No text later in the stretch is taken for a source assignment. *)
Lemma later_source_none s x y :
  later_source s = false -> s = x +:+ y -> nonempty x = true ->
  all_chars not_rbrace x = true -> run source_pattern y = None.
Proof.
  revert s. induction x as [|c x IH]; intros s Hlater -> Hne Hx.
  { discriminate Hne. }
  simpl in *. apply andb_prop in Hx as [Hc Hx]. rewrite Hc in Hlater.
  simpl in Hlater. apply orb_false_elim in Hlater as [Hnow Hlater].
  destruct x as [|d x].
  - simpl in Hnow. apply bool_decide_eq_false in Hnow.
    destruct (run source_pattern y); [|done]. destruct Hnow. by eexists.
  - by apply (IH (String d x +:+ y)).
Qed.

(** A well-formed module header is matched up to its source assignment
    when no later text of the stretch is taken for one. *)
Lemma run_module_decl ws1 N ws2 body ws4 ws5 src rest :
  spaces ws1 = true -> token N = true -> spaces ws2 = true ->
  all_chars not_rbrace body = true ->
  spaces ws4 = true -> spaces ws5 = true -> token src = true ->
  later_source (source_assignment ws4 ws5 src +:+ rest) = false ->
  run module_pattern (module_decl ws1 N ws2 body ws4 ws5 src +:+ rest)
  = Some (module_decl ws1 N ws2 body ws4 ws5 src, [N; src]).
Proof.
  intros [? ?]%spaces_spec [? ?]%token_spec [? ?]%spaces_spec Hbody
         Hw4 Hw5 Hsrc Hlater.
  remember (source_assignment ws4 ws5 src) as SA eqn:HSA.
  unfold module_decl, quoted. rewrite ?text_app_assoc.
  unfold module_pattern. cbn [app].
  apply run_lit, run_plus_stop; [done..|].
  apply run_lit, run_group_stop; [done..|].
  apply run_lit, run_plus_stop; [done..|].
  apply run_lit, run_star_last; [done| |].
  - subst SA. by apply run_source_assignment.
  - intros x y Heq Hne Hx. subst SA. by apply (later_source_none _ x y Hlater).
Qed.

(** ** The scan of a text *)

(** As long as no match runs over the end of [pre], the scan of
    [pre +:+ s] is a scan of [pre] followed by a scan of [s]. *)
Lemma finditer_from_cut pat pre s pos skip :
  skip <= String.length pre ->
  Forall (fun m => m_start m < pos + String.length pre ->
                   m_end m <= pos + String.length pre)
         (finditer_from pat pos skip (pre +:+ s)) ->
  exists ms1,
    finditer_from pat pos skip (pre +:+ s)
    = ms1 ++ finditer_from pat (pos + String.length pre) 0 s /\
    Forall (fun m => m_end m <= pos + String.length pre) ms1.
Proof.
  revert pos skip. induction pre as [|c pre IH]; intros pos skip Hskip Hno.
  - simpl in *. assert (skip = 0) as -> by lia. exists [].
    by rewrite Nat.add_0_r.
  - cbn [String.append String.length] in *.
    replace (pos + S (String.length pre)) with (S pos + String.length pre)
      in * by lia.
    destruct skip as [|n]; cbn [finditer_from] in *.
    + destruct (run pat (String c (pre +:+ s))) as [[m g]|] eqn:Hr.
      * apply Forall_cons in Hno as [Hm Hno]. unfold m_end in Hm.
        simpl in Hm. specialize (Hm ltac:(lia)).
        destruct (IH (S pos) (pred (String.length m)) ltac:(lia) Hno)
          as (ms1 & -> & Hms1).
        exists (Match pos m g :: ms1). split; [done|].
        apply Forall_cons. split; [|done]. unfold m_end. simpl. lia.
      * destruct (IH (S pos) 0 ltac:(lia) Hno) as (ms1 & -> & Hms1).
        by exists ms1.
    + destruct (IH (S pos) n ltac:(lia) Hno) as (ms1 & -> & Hms1).
      by exists ms1.
Qed.

(** Where the pattern matches a text that is not empty, the scan lists
    that match and goes on after it. *)
Lemma finditer_from_hit pat s pos m g :
  run pat s = Some (m, g) -> nonempty m = true ->
  exists ms2,
    finditer_from pat pos 0 s = Match pos m g :: ms2 /\
    Forall (fun m' => pos + String.length m <= m_start m') ms2.
Proof.
  intros Hr Hne. destruct (run_sound _ _ _ _ Hr) as [_ [r ->]].
  destruct m as [|c m]; [done|]. cbn [String.append] in *.
  cbn [finditer_from]. rewrite Hr. eexists. split; [done|].
  apply Forall_forall.
  intros m' (u & v & _ & -> & Hskip & _)%list_elem_of_In%finditer_from_sound.
  simpl in *. lia.
Qed.

(** ** The statements of the parser *)

Lemma for_each_app {A : Type} (xs : list A) (body : A -> M unit)
    (f : A -> TerraformResource) rs :
  (forall x rs', In x xs -> body x rs' = (rs' ++ [f x], inr tt)) ->
  for_each xs body rs = (rs ++ map f xs, inr tt).
Proof.
  revert rs. induction xs as [|x xs IH]; intros rs Hbody; simpl.
  - unfold ret. by rewrite (right_id_L [] (++)).
  - unfold bind. rewrite Hbody by (by left).
    rewrite IH by (intros; apply Hbody; by right).
    by rewrite <- (assoc_L (++)).
Qed.

Lemma index_second_to_last (parts : list string) :
  2 <= length parts ->
  index parts (-2) = inr (default EmptyString (parts !! (length parts - 2))).
Proof.
  intros Hlen. unfold index.
  replace (-2 <? 0)%Z with true by done.
  replace ((0 <=? -2 + Z.of_nat (length parts))
           && (-2 + Z.of_nat (length parts) <? Z.of_nat (length parts)))%Z
    with true by (symmetry; apply andb_true_intro; split; lia).
  replace (Z.to_nat (-2 + Z.of_nat (length parts))) with (length parts - 2)
    by lia.
  destruct (lookup_lt_is_Some_2 parts (length parts - 2) ltac:(lia))
    as [x ->].
  done.
Qed.

(** Lines 69 and 70 never raise, and give the normalized name. *)
Lemma module_type_ok src rs : module_type src rs = (rs, inr (normalized src)).
Proof.
  unfold module_type, normalized, source_parts.
  destruct (2 <=? length (split slash src)) eqn:Hlen; [|done].
  apply Nat.leb_le in Hlen. unfold lift. by rewrite index_second_to_last.
Qed.

Lemma add_resource_ok path m T N rs :
  m_groups m = [T; N] ->
  add_resource path m rs = (rs ++ [resource_record path m], inr tt).
Proof.
  intros Hg. unfold add_resource, resource_record, bind, lift, group, append.
  by rewrite Hg.
Qed.

Lemma add_module_ok path m N src rs :
  m_groups m = [N; src] ->
  add_module path m rs = (rs ++ [module_record path m], inr tt).
Proof.
  intros Hg. unfold add_module, module_record, bind, lift, group, append.
  rewrite Hg. simpl. by rewrite module_type_ok.
Qed.

Lemma resource_match_groups content m :
  In m (finditer resource_pattern content) ->
  exists T N, m_groups m = [T; N].
Proof.
  intros (u & v & _ & _ & _ & Hr)%finditer_from_sound.
  apply resource_match_shape in Hr
    as (? & T & ? & N & ? & ? & ? & ? & ? & ? & ?).
  by exists T, N.
Qed.

Lemma module_match_groups content m :
  In m (finditer module_pattern content) ->
  exists N src, m_groups m = [N; src].
Proof.
  intros (u & v & _ & _ & _ & Hr)%finditer_from_sound.
  apply module_match_shape in Hr
    as (? & N & ? & ? & ? & ? & src & ? & ? & ? & ? & ? & ? & ? & ? & ? & ?).
  by exists N, src.
Qed.

(** The body of the [try] block raises nothing once the file is read,
    and adds the records of the text. *)
Lemma parse_body_ok w path content rs :
  read_text w path = inr content ->
  parse_body w path rs = (rs ++ records_of path content, inr tt).
Proof.
  intros Hread. unfold parse_body, bind, lift. rewrite Hread.
  rewrite (for_each_app _ _ (resource_record path)).
  2: { intros m rs' (T & N & Hg)%resource_match_groups.
       by apply (add_resource_ok _ _ T N). }
  rewrite (for_each_app _ _ (module_record path)).
  2: { intros m rs' (N & src & Hg)%module_match_groups.
       by apply (add_module_ok _ _ N src). }
  unfold records_of. by rewrite (assoc_L (++)).
Qed.

(** A file that can be read gives the records of its text, and nothing
    is printed. *)
Lemma parse_read_ok w path content out :
  read_text w path = inr content ->
  parse_terraform_file w path out = (records_of path content, out).
Proof.
  intros Hread. unfold parse_terraform_file.
  by rewrite (parse_body_ok _ _ content).
Qed.

(** A file that cannot be read gives no record, and one line is printed. *)
Lemma parse_read_fail w path e out :
  read_text w path = inl e ->
  parse_terraform_file w path out
  = ([], out ++ ["Error parsing file " +:+ path +:+ ": " +:+ exn_msg e]).
Proof.
  intros Hread. unfold parse_terraform_file, parse_body, bind, lift.
  by rewrite Hread.
Qed.

Lemma parse_file_spec w path out :
  parse_terraform_file w path out
  = (file_records w path, out ++ file_errors w path).
Proof.
  unfold file_records, file_errors.
  destruct (read_text w path) as [e|content] eqn:Hread.
  - by apply parse_read_fail.
  - rewrite (right_id_L [] (++)). by apply parse_read_ok.
Qed.

Lemma parse_files_spec w files all out :
  parse_files w files all out
  = (all ++ flat_map (file_records w) files,
     out ++ flat_map (file_errors w) files).
Proof.
  revert all out. induction files as [|f files IH]; intros all out; simpl.
  - by rewrite !(right_id_L [] (++)).
  - rewrite parse_file_spec, IH. by rewrite <- !(assoc_L (++)).
Qed.

(** ** The records of a file and of a scan *)

Lemma records_of_identifier path content :
  Forall (fun r => resource_id r = derived_identifier r)
         (records_of path content).
Proof.
  unfold records_of. apply Forall_app. split; apply Forall_forall;
    intros r (m & <- & _)%list_elem_of_In%in_map_iff; reflexivity.
Qed.

Lemma file_records_identifier w f :
  Forall (fun r => resource_id r = derived_identifier r) (file_records w f).
Proof.
  unfold file_records. destruct (read_text w f); [constructor|].
  apply records_of_identifier.
Qed.

Lemma analyze_spec w dir out :
  analyze_terraform_project w dir out
  = let all := flat_map (file_records w) (terraform_files w dir) in
    {| project_resources :=
         {| resources := all; resource_count := length all;
            resource_types := count_by_type all |};
       returned_types := list_to_set (map resource_type all);
       printed := out ++ flat_map (file_errors w) (terraform_files w dir) |}.
Proof. unfold analyze_terraform_project. by rewrite parse_files_spec. Qed.

(** C6. Every record the extraction produces, for one file or for a whole
    scan, has the identifier its kind and names determine:
    [type_name.instance_name] for a resource and [module.instance_name]
    for a module. *)
Theorem identifier_is_derived (w : World) (path dir : string)
    (out : list string) :
  Forall (fun r => resource_id r = derived_identifier r)
         (parse_terraform_file w path out).1 /\
  Forall (fun r => resource_id r = derived_identifier r)
         (resources (project_resources (analyze_terraform_project w dir out))).
Proof.
  split.
  - rewrite parse_file_spec. apply file_records_identifier.
  - rewrite analyze_spec. simpl. apply Forall_forall.
    intros r (f & _ & Hr)%list_elem_of_In%in_flat_map.
    pose proof (file_records_identifier w f) as Hall.
    rewrite Forall_forall in Hall. by apply Hall, list_elem_of_In.
Qed.

(** C9. Running the extraction of a file a second time, after the first
    run and whatever it printed, gives the same list of records, in the
    same order; the list does not depend on what was printed before. *)
Theorem extraction_twice (w : World) (path : string) (out : list string) :
  (parse_terraform_file w path (parse_terraform_file w path out).2).1
  = (parse_terraform_file w path out).1 /\
  forall out', (parse_terraform_file w path out').1
               = (parse_terraform_file w path out).1.
Proof. split; intros; by rewrite !parse_file_spec. Qed.

(** C5. A file that cannot be opened or read gives no record and one
    printed line. In a scan it does not stop the files after it: the loop
    goes on with the records it had and with that line printed, the
    records of the scan are those of a scan of the other files, and the
    result object is built all the same. *)
Theorem unreadable_file_is_isolated (w : World) (dir : string)
    (files1 files2 : list string) (f : string) (e : exn)
    (out : list string) :
  terraform_files w dir = files1 ++ f :: files2 ->
  read_text w f = inl e ->
  let line := "Error parsing file " +:+ f +:+ ": " +:+ exn_msg e in
  let a := analyze_terraform_project w dir out in
  let before := parse_files w files1 [] out in
  parse_terraform_file w f out = ([], out ++ [line]) /\
  parse_files w (files1 ++ f :: files2) [] out
  = parse_files w files2 before.1 (before.2 ++ [line]) /\
  resources (project_resources a)
  = (parse_files w (files1 ++ files2) [] out).1 /\
  resource_count (project_resources a)
  = length (resources (project_resources a)) /\
  printed a
  = out ++ flat_map (file_errors w) files1 ++ [line]
    ++ flat_map (file_errors w) files2.
Proof.
  intros Hfiles Hread line a before. subst a before.
  rewrite analyze_spec, Hfiles, !parse_files_spec. simpl.
  rewrite !flat_map_app. simpl.
  assert (file_records w f = []) as ->
    by (unfold file_records; by rewrite Hread).
  assert (file_errors w f = [line]) as ->
    by (unfold file_errors; by rewrite Hread).
  simpl. rewrite <- !(assoc_L (++)). split_and!; try done.
  by apply parse_read_fail.
Qed.

Lemma unreadable_file_is_isolated_witness :
  map resource_name
      (resources (project_resources
                    (analyze_terraform_project world_with_missing "infra" [])))
  = ["logs"; "vpc"; "data"] /\
  printed (analyze_terraform_project world_with_missing "infra" [])
  = ["Error parsing file gone.tf: No such file or directory"].
Proof.
  destruct (unreadable_file_is_isolated world_with_missing "infra" ["a.tf"]
              ["b.tf"] "gone.tf" (OSError "No such file or directory") [])
    as (_ & _ & Hres & _ & Hout); [reflexivity| reflexivity|].
  rewrite Hres, Hout. split; vm_compute; reflexivity.
Defined.

(** A match of either pattern holds a double quote. *)
Lemma no_quote_no_match content :
  all_chars not_dquote content = true ->
  finditer resource_pattern content = [] /\
  finditer module_pattern content = [].
Proof.
  intros Hnq. split.
  - destruct (finditer resource_pattern content) as [|m ms] eqn:Hms; [done|].
    assert (In m (finditer resource_pattern content)) as Hin
      by (rewrite Hms; by left).
    apply finditer_from_sound in Hin as (u & v & -> & _ & _ & Hr).
    apply resource_match_shape in Hr
      as (w1 & T & w2 & N & _ & _ & _ & _ & -> & _ & r & ->).
    revert Hnq. flatten_text. rewrite !all_chars_app. simpl.
    rewrite !andb_false_r. done.
  - destruct (finditer module_pattern content) as [|m ms] eqn:Hms; [done|].
    assert (In m (finditer module_pattern content)) as Hin
      by (rewrite Hms; by left).
    apply finditer_from_sound in Hin as (u & v & -> & _ & _ & Hr).
    apply module_match_shape in Hr
      as (w1 & N & w2 & body & w4 & w5 & src & _ & _ & _ & _ & _ & _ & _
          & -> & _ & r & ->).
    revert Hnq. flatten_text. rewrite !all_chars_app. simpl.
    rewrite !andb_false_r. done.
Qed.

(** C8. A file whose text has no match of the resource pattern and none
    of the module pattern gives the empty list and raises nothing; a text
    with no double quote in it is such a text. A scan that finds no file
    gives the empty result, with no type counted, and prints nothing. *)
Theorem nothing_declared_gives_nothing (w : World) (path dir : string)
    (content : string) (out : list string) :
  (read_text w path = inr content ->
   finditer resource_pattern content = [] ->
   finditer module_pattern content = [] ->
   parse_body w path [] = ([], inr tt) /\
   parse_terraform_file w path out = ([], out)) /\
  (read_text w path = inr content ->
   all_chars not_dquote content = true ->
   parse_terraform_file w path out = ([], out)) /\
  (terraform_files w dir = [] ->
   let a := analyze_terraform_project w dir out in
   resources (project_resources a) = [] /\
   resource_count (project_resources a) = 0 /\
   resource_types (project_resources a) = ∅ /\
   returned_types a = ∅ /\
   printed a = out).
Proof.
  split_and!.
  - intros Hread Hres Hmod.
    rewrite (parse_body_ok _ _ content), (parse_read_ok _ _ content) by done.
    unfold records_of. by rewrite Hres, Hmod.
  - intros Hread [Hres Hmod]%no_quote_no_match.
    rewrite (parse_read_ok _ _ content) by done.
    unfold records_of. by rewrite Hres, Hmod.
  - intros Hfiles a. subst a. rewrite analyze_spec, Hfiles. simpl.
    by rewrite (right_id_L [] (++)).
Qed.

Lemma nothing_declared_gives_nothing_witness :
  let text := "output " +:+ quoted "id" +:+ " { value = 1 }" in
  let w := world_of "infra"
             [("variables.tf", "variable region {}"); ("outputs.tf", text)] in
  parse_terraform_file w "outputs.tf" [] = ([], []) /\
  parse_terraform_file w "variables.tf" [] = ([], []) /\
  resource_types
    (project_resources (analyze_terraform_project w "elsewhere" [])) = ∅.
Proof.
  intros text w.
  destruct (nothing_declared_gives_nothing w "outputs.tf" "elsewhere" text [])
    as (Hnone & _ & Hscan).
  destruct (nothing_declared_gives_nothing w "variables.tf" "elsewhere"
              "variable region {}" []) as (_ & Hquote & _).
  split_and!.
  - apply Hnone; reflexivity.
  - apply Hquote; reflexivity.
  - apply Hscan. reflexivity.
Defined.

(** C4. A scan that finds two files, one with the declarations of the
    bucket [logs] and of the module [vpc] and one with the declaration of
    the bucket [data], in either order, gives three records, the counts
    2 for [aws_s3_bucket] and 1 for [vpc], and the set of these two type
    names. *)
Theorem two_files_scenario (w : World) (dir f1 f2 : string)
    (out : list string) :
  terraform_files w dir ≡ₚ [f1; f2] ->
  read_text w f1 = inr logs_and_vpc ->
  read_text w f2 = inr data_bucket ->
  let a := analyze_terraform_project w dir out in
  length (resources (project_resources a)) = 3 /\
  resource_count (project_resources a) = 3 /\
  resource_types (project_resources a)
  = {[ "aws_s3_bucket" := 2; "vpc" := 1 ]} /\
  returned_types a = {[ "aws_s3_bucket"; "vpc" ]} /\
  printed a = out.
Proof.
  intros Hfiles Hf1 Hf2 a. subst a. rewrite analyze_spec.
  symmetry in Hfiles. apply Permutation_length_2_inv in Hfiles as [-> | ->];
    simpl; unfold file_records, file_errors; rewrite Hf1, Hf2;
    rewrite !(right_id_L [] (++)); split_and!; try done;
    vm_compute; reflexivity.
Qed.

Lemma two_files_scenario_witness :
  let w := world_of "infra" [("a.tf", logs_and_vpc); ("b.tf", data_bucket)] in
  resource_types (project_resources (analyze_terraform_project w "infra" []))
  = {[ "aws_s3_bucket" := 2; "vpc" := 1 ]}.
Proof.
  intros w.
  apply (two_files_scenario w "infra" "a.tf" "b.tf" []); reflexivity.
Defined.

(** ** Resource declarations *)

Lemma second_token_present_intro w2 n r :
  spaces w2 = true -> token n = true ->
  second_token_present (w2 +:+ String dquote (n +:+ String dquote r)) = true.
Proof.
  intros [Hne2 Hw2]%spaces_spec [Hnen Hn]%token_spec.
  unfold second_token_present.
  rewrite (drop_while_app is_space w2) by done.
  destruct w2 as [|c w2]; [done|]. cbn [String.append].
  simpl in Hw2. apply andb_prop in Hw2 as [-> _].
  rewrite Ascii.eqb_refl.
  rewrite (drop_while_app not_dquote n) by done.
  destruct n as [|e n]; [done|]. cbn [String.append].
  simpl in Hn. apply andb_prop in Hn as [-> _]. done.
Qed.

(** A header with one quoted token and no second one is not matched. *)
Lemma run_resource_malformed ws1 T tail :
  all_chars is_space ws1 = true -> all_chars not_dquote T = true ->
  second_token_present tail = false ->
  run resource_pattern ("resource" +:+ ws1 +:+ quoted T +:+ tail) = None.
Proof.
  intros Hws1 HT Htail.
  destruct (run resource_pattern _) as [[m g]|] eqn:Hr; [|done].
  apply resource_match_shape in Hr
    as (w1 & T' & w2 & N' & [_ Hw1]%spaces_spec & [_ HT']%token_spec & Hw2
        & HN' & -> & _ & r & Heq).
  revert Heq. flatten_text. cbn [String.append chr]. intros Heq.
  simplify_eq.
  apply (app_eq_first is_space) in Heq as (<- & _ & Heq); [|done..].
  apply (app_eq_first not_dquote) in Heq as (<- & _ & Heq); [|done..].
  rewrite Heq, second_token_present_intro in Htail; done.
Qed.

(** The match of a scan that starts at a given offset is a match of the
    pattern on the text from that offset on. *)
Lemma finditer_at_offset pat pre s m :
  In m (finditer pat (pre +:+ s)) -> m_start m = String.length pre ->
  run pat s = Some (m_text m, m_groups m).
Proof.
  intros (u & v & Heq & Hst & _ & Hr)%finditer_from_sound Hpre.
  symmetry in Heq. apply app_eq_length in Heq as [_ ->]; [done|lia].
Qed.

(** C7. Where the keyword [resource] is followed by white space and one
    quoted token, and then by anything but white space and a second quoted
    token, the scan lists no match at that place, so that no record comes
    from it, and the extraction raises nothing. (The white space and the
    token may even be empty.) *)
Theorem malformed_resource_is_skipped (w : World) (path : string)
    (out : list string) (pre ws1 T tail : string) :
  all_chars is_space ws1 = true -> all_chars not_dquote T = true ->
  second_token_present tail = false ->
  let text := pre +:+ "resource" +:+ ws1 +:+ quoted T +:+ tail in
  read_text w path = inr text ->
  Forall (fun m => m_start m <> String.length pre)
         (finditer resource_pattern text) /\
  parse_body w path [] = (records_of path text, inr tt) /\
  parse_terraform_file w path out = (records_of path text, out).
Proof.
  intros Hws1 HT Htail text Hread.
  split_and!.
  - apply Forall_forall. intros m Hin%list_elem_of_In Hst.
    apply finditer_at_offset in Hin; [|done].
    by rewrite run_resource_malformed in Hin.
  - by rewrite (parse_body_ok _ _ text).
  - by apply parse_read_ok.
Qed.

Lemma malformed_resource_is_skipped_witness :
  let text := "# one" +:+ newline +:+ "resource " +:+ quoted "aws_s3_bucket"
              +:+ " {" +:+ newline +:+ "  bucket = " +:+ quoted "logs"
              +:+ newline +:+ "}" in
  parse_terraform_file (world_of "infra" [("main.tf", text)]) "main.tf" []
  = ([], []).
Proof.
  intros text.
  destruct (malformed_resource_is_skipped
              (world_of "infra" [("main.tf", text)]) "main.tf" []
              ("# one" +:+ newline) " " "aws_s3_bucket"
              (" {" +:+ newline +:+ "  bucket = " +:+ quoted "logs"
               +:+ newline +:+ "}"))
    as (_ & _ & Hparse); [reflexivity..|].
  rewrite Hparse. vm_compute. reflexivity.
Defined.

Lemma resource_decl_nonempty ws1 T ws2 N :
  nonempty (resource_decl ws1 T ws2 N) = true.
Proof. reflexivity. Qed.

(** Not every well-formed declaration in a text gives a record: this text
    holds a well-formed declaration of the bucket [logs], and its only
    record comes from the comment before it, whose open quote runs into
    the declaration. *)
Lemma resource_record_lost_after_open_quote :
  let w := world_of "infra" [("main.tf", comment_then_resource)] in
  comment_then_resource
  = ("# see resource " +:+ quoted "aws_instance" +:+ " " +:+ chr dquote
     +:+ "web" +:+ newline)
    +:+ resource_decl " " "aws_s3_bucket" " " "logs" +:+ " {}" /\
  (parse_terraform_file w "main.tf" []).1
  = [ {| resource_type := "aws_instance";
         resource_name := "web" +:+ newline +:+ "resource ";
         resource_id := "aws_instance.web" +:+ newline +:+ "resource ";
         file_path := "main.tf"; is_module := false;
         module_source := None |} ] /\
  ~ exists r, In r (parse_terraform_file w "main.tf" []).1 /\
              resource_type r = "aws_s3_bucket" /\ resource_name r = "logs".
Proof.
  intros w.
  assert ((parse_terraform_file w "main.tf" []).1
          = [ {| resource_type := "aws_instance";
                 resource_name := "web" +:+ newline +:+ "resource ";
                 resource_id := "aws_instance.web" +:+ newline +:+ "resource ";
                 file_path := "main.tf"; is_module := false;
                 module_source := None |} ]) as Hrecords
    by (vm_compute; reflexivity).
  split_and!; [reflexivity|done|].
  rewrite Hrecords. intros (r & [<-|[]] & Htype & _). discriminate Htype.
Qed.

(** C3 (amended). Take a text with a well-formed resource declaration,
    the keyword, white space, a quoted type [T], white space and a quoted
    name [N], that no earlier match of the resource pattern runs into.
    Then the scan lists exactly one match over the declaration, the
    matches before it end before it and those after it start after it,
    whatever follows the declaration; and the record of that match has
    the type [T], the name [N] and the identifier [T.N]. *)
Theorem resource_declaration_yields_record (w : World) (path : string)
    (out : list string) (pre ws1 T ws2 N rest : string) :
  spaces ws1 = true -> token T = true -> spaces ws2 = true ->
  token N = true ->
  let decl := resource_decl ws1 T ws2 N in
  let text := pre +:+ decl +:+ rest in
  read_text w path = inr text ->
  Forall (fun m => m_start m < String.length pre ->
                   m_end m <= String.length pre)
         (finditer resource_pattern text) ->
  exists ms1 ms2,
    finditer resource_pattern text
    = ms1 ++ Match (String.length pre) decl [T; N] :: ms2 /\
    Forall (fun m => m_end m <= String.length pre) ms1 /\
    Forall (fun m => String.length pre + String.length decl <= m_start m)
           ms2 /\
    (parse_terraform_file w path out).1
    = map (resource_record path) ms1
      ++ {| resource_type := T; resource_name := N;
            resource_id := T +:+ "." +:+ N; file_path := path;
            is_module := false; module_source := None |}
         :: map (resource_record path) ms2
      ++ map (module_record path) (finditer module_pattern text).
Proof.
  intros Hws1 HT Hws2 HN decl text Hread Hno.
  destruct (finditer_from_cut resource_pattern pre (decl +:+ rest) 0 0)
    as (ms1 & Hcut & Hms1); [lia|done|].
  destruct (finditer_from_hit resource_pattern (decl +:+ rest)
              (String.length pre) decl [T; N])
    as (ms2 & Hhit & Hms2);
    [by apply run_resource_decl|apply resource_decl_nonempty|].
  change (0 + String.length pre) with (String.length pre) in *.
  rewrite Hhit in Hcut.
  exists ms1, ms2. split_and!; [done..|].
  rewrite (parse_read_ok _ _ text) by done. unfold records_of, finditer.
  fold text in Hcut. rewrite Hcut, map_app. simpl.
  by rewrite <- (assoc_L (++)).
Qed.

Lemma resource_declaration_yields_record_witness :
  let pre := "# buckets" +:+ newline in
  let decl := resource_decl " " "aws_s3_bucket" " " "logs" in
  let text := pre +:+ decl +:+ " { bucket = " +:+ quoted "x" +:+ " }" in
  exists ms1 ms2,
    finditer resource_pattern text
    = ms1 ++ Match 10 decl ["aws_s3_bucket"; "logs"] :: ms2 /\
    Forall (fun m => m_end m <= 10) ms1 /\
    Forall (fun m => 10 + String.length decl <= m_start m) ms2 /\
    (parse_terraform_file (world_of "infra" [("main.tf", text)])
                          "main.tf" []).1
    = map (resource_record "main.tf") ms1
      ++ {| resource_type := "aws_s3_bucket"; resource_name := "logs";
            resource_id := "aws_s3_bucket.logs"; file_path := "main.tf";
            is_module := false; module_source := None |}
         :: map (resource_record "main.tf") ms2
      ++ map (module_record "main.tf") (finditer module_pattern text).
Proof.
  intros pre decl text.
  apply (resource_declaration_yields_record
           (world_of "infra" [("main.tf", text)]) "main.tf" []
           pre " " "aws_s3_bucket" " " "logs"
           (" { bucket = " +:+ quoted "x" +:+ " }")); [reflexivity..|].
  vm_compute. repeat constructor. lia.
Defined.

(** ** Module declarations *)

(** Every match the scan lists for the module pattern is, at its offset,
    a module header up to a source assignment, with no closing brace
    between the opening brace and the word [source]. *)
Lemma module_matches_shape text m :
  In m (finditer module_pattern text) ->
  exists u r w1 N w2 body w4 w5 src,
    text = u +:+ m_text m +:+ r /\ String.length u = m_start m /\
    m_text m = module_decl w1 N w2 body w4 w5 src /\ m_groups m = [N; src] /\
    spaces w1 = true /\ token N = true /\ spaces w2 = true /\
    all_chars not_rbrace body = true /\
    spaces w4 = true /\ spaces w5 = true /\ token src = true.
Proof.
  intros (u & v & -> & Hst & _ & Hr)%finditer_from_sound.
  apply module_match_shape in Hr
    as (w1 & N & w2 & body & w4 & w5 & src & ? & ? & ? & ? & ? & ? & ?
        & Hm & Hg & r & ->).
  exists u, r, w1, N, w2, body, w4, w5, src. by split_and!.
Qed.









(** The word [source] of the module pattern has no boundary before it:
    the end of the name of another argument is taken for it as well, and
    a block written without white space around [=] in its own source
    assignment then gives a record with the value of that argument. *)
Lemma unspaced_module_gets_later_argument :
  let w :=
    world_of "infra" [("main.tf", unspaced_module_with_log_source)] in
  finditer module_pattern unspaced_module_with_log_source
  = [ Match 0
        ("module " +:+ quoted "m" +:+ " { source=" +:+ quoted "a/b/c"
         +:+ newline +:+ "  log_source = " +:+ quoted "x/y/z")
        ["m"; "x/y/z"] ] /\
  (parse_terraform_file w "main.tf" []).1
  = [ {| resource_type := "y"; resource_name := "m";
         resource_id := "module.m"; file_path := "main.tf";
         is_module := true; module_source := Some "x/y/z" |} ].
Proof. intros w. split; vm_compute; reflexivity. Qed.



(** ** The normalization of a module source *)

Lemma split_not_nil sep s : split sep s <> [].
Proof.
  destruct s as [|c s]; simpl; [done|].
  destruct (Ascii.eqb c sep); [done|]. by destruct (split sep s).
Qed.

Lemma split_no_sep sep s :
  all_chars (fun c => negb (Ascii.eqb c sep)) s = true -> split sep s = [s].
Proof.
  induction s as [|c s IH]; simpl; [done|].
  intros [Hc Hs]%andb_prop. apply negb_true_iff in Hc. rewrite Hc.
  by rewrite IH.
Qed.

Lemma split_app_sep sep u v :
  split sep (u +:+ String sep v) = split sep u ++ split sep v.
Proof.
  induction u as [|c u IH]; cbn [String.append split].
  - by rewrite Ascii.eqb_refl.
  - destruct (Ascii.eqb c sep); [by rewrite IH|].
    rewrite IH. pose proof (split_not_nil sep u).
    by destruct (split sep u).
Qed.

(** A source with no slash is its own normalized name. *)
Lemma normalized_no_slash s : no_slash s = true -> normalized s = s.
Proof. intros Hs. unfold normalized. by rewrite split_no_sep. Qed.

(** The normalized name of a source that ends in [/B/C] is [B]. *)
Lemma normalized_second_to_last A B C :
  no_slash B = true -> no_slash C = true ->
  normalized (A +:+ "/" +:+ B +:+ "/" +:+ C) = B.
Proof.
  intros HB HC. unfold normalized. cbn [String.append].
  rewrite !split_app_sep, (split_no_sep _ B), (split_no_sep _ C) by done.
  unfold slash. generalize (split "/" A). intros parts.
  rewrite !length_app. simpl length.
  destruct (Nat.leb_spec 2 (length parts + (1 + 1))) as [_|]; [|lia].
  replace (length parts + (1 + 1) - 2) with (length parts) by lia.
  rewrite lookup_app_r by lia. by rewrite Nat.sub_diag.
Qed.

(** C1. The input below has the form of a module header whose block
    starts with the assignment of the source [a/b/c], followed by a second
    argument, [log_source]. The rule gives it one record with the type
    name [b] and the module source [a/b/c]. The extraction gives it one
    record with the type name [y] and the module source [x/y/z], the
    value of the later argument: in the pattern of the module pass the
    word [source] has no boundary before it and follows a repetition that
    takes the longest stretch without a closing brace, so the last text
    that ends in [source], white space, [=], white space and a quoted
    value is the one captured. *)
Lemma later_argument_is_captured :
  let w := world_of "infra" [("main.tf", module_with_log_source)] in
  module_with_log_source
  = module_decl " " "m" " " " " " " " " "a/b/c"
    +:+ newline +:+ "  log_source = " +:+ quoted "x/y/z" +:+ " }" /\
  (parse_terraform_file w "main.tf" []).1
  = [ {| resource_type := "y"; resource_name := "m";
         resource_id := "module.m"; file_path := "main.tf";
         is_module := true; module_source := Some "x/y/z" |} ] /\
  ~ exists r, In r (parse_terraform_file w "main.tf" []).1 /\
              resource_type r = "b" /\ module_source r = Some "a/b/c".
Proof.
  intros w.
  assert ((parse_terraform_file w "main.tf" []).1
          = [ {| resource_type := "y"; resource_name := "m";
                 resource_id := "module.m"; file_path := "main.tf";
                 is_module := true; module_source := Some "x/y/z" |} ])
    as Hrecords by (vm_compute; reflexivity).
  split_and!; [reflexivity|done|].
  rewrite Hrecords. intros (r & [<-|[]] & Htype & _). discriminate Htype.
Qed.

Lemma module_decl_nonempty ws1 N ws2 body ws4 ws5 src :
  nonempty (module_decl ws1 N ws2 body ws4 ws5 src) = true.
Proof. reflexivity. Qed.

(** The type name of every module record is computed from the raw source
    by splitting it on the slash: the second-to-last piece when there are
    two pieces or more, the raw source otherwise; so a source that ends in
    [/B/C] gives [B] and a source with no slash gives itself. Where the
    assignment of the source [A/B/C] at the start of a module block is the
    last text before the first closing brace that the source pattern
    matches, the module pass lists one match for the header, and its
    record has the type name [B] and the module source [A/B/C]. *)
Theorem module_source_normalization (w : World) (path : string)
    (out : list string) (ws1 N ws2 ws3 ws4 ws5 A B C rest : string) :
  Forall (fun r => is_module r = true ->
                   exists s, module_source r = Some s /\
                             resource_type r = normalized s)
         (parse_terraform_file w path out).1 /\
  (no_slash B = true -> no_slash C = true ->
   normalized (A +:+ "/" +:+ B +:+ "/" +:+ C) = B /\
   normalized B = B) /\
  (spaces ws1 = true -> token N = true -> spaces ws2 = true ->
   all_chars is_space ws3 = true -> spaces ws4 = true ->
   spaces ws5 = true ->
   all_chars not_dquote A = true -> all_chars not_dquote B = true ->
   all_chars not_dquote C = true ->
   no_slash B = true -> no_slash C = true ->
   let src := A +:+ "/" +:+ B +:+ "/" +:+ C in
   let decl := module_decl ws1 N ws2 ws3 ws4 ws5 src in
   read_text w path = inr (decl +:+ rest) ->
   later_source (source_assignment ws4 ws5 src +:+ rest) = false ->
   exists ms,
     finditer module_pattern (decl +:+ rest) = Match 0 decl [N; src] :: ms /\
     Forall (fun m => String.length decl <= m_start m) ms /\
     (parse_terraform_file w path out).1
     = map (resource_record path) (finditer resource_pattern (decl +:+ rest))
       ++ {| resource_type := B; resource_name := N;
             resource_id := "module." +:+ N; file_path := path;
             is_module := true; module_source := Some src |}
          :: map (module_record path) ms).
Proof.
  split_and!.
  - rewrite parse_file_spec. simpl. unfold file_records.
    destruct (read_text w path) as [e|content]; [constructor|].
    apply Forall_forall. unfold records_of.
    intros r [(m & <- & _)%in_map_iff|(m & <- & _)%in_map_iff]
             %list_elem_of_In%in_app_or Hmod; [done|].
    by eexists.
  - intros HB HC. split.
    + by apply normalized_second_to_last.
    + by apply normalized_no_slash.
  - intros Hws1 HN Hws2 Hws3 Hws4 Hws5 HA HB HC HsB HsC src decl Hread
           Hlater.
    assert (token src = true) as Hsrc.
    { apply token_spec. split; [by destruct A|].
      subst src. rewrite !all_chars_app. simpl. by rewrite HA, HB, HC. }
    assert (all_chars not_rbrace ws3 = true) as Hbody.
    { revert Hws3. apply all_chars_impl. intros c Hc.
      unfold not_rbrace. destruct (Ascii.eqb_spec c rbrace) as [->|]; done. }
    destruct (finditer_from_hit module_pattern (decl +:+ rest) 0 decl
                [N; src])
      as (ms & Hhit & Hms);
      [by apply run_module_decl|apply module_decl_nonempty|].
    exists ms. split_and!; [done..|].
    rewrite (parse_read_ok _ _ (decl +:+ rest)) by done.
    unfold records_of, finditer at 2. rewrite Hhit. simpl.
    unfold module_record at 1. simpl. do 3 f_equal.
    by apply normalized_second_to_last.
Qed.

Lemma module_source_normalization_witness :
  let src := "terraform-aws-modules" +:+ "/" +:+ "vpc" +:+ "/" +:+ "aws" in
  let decl := module_decl " " "vpc" " " " " " " " " src in
  let rest := newline +:+ "  version = " +:+ quoted "3.0" +:+ newline +:+ "}" in
  let w := world_of "infra" [("main.tf", decl +:+ rest)] in
  (normalized src = "vpc" /\ normalized "vpc" = "vpc") /\
  exists ms,
    finditer module_pattern (decl +:+ rest)
    = Match 0 decl ["vpc"; src] :: ms /\
    Forall (fun m => String.length decl <= m_start m) ms /\
    (parse_terraform_file w "main.tf" []).1
    = map (resource_record "main.tf")
          (finditer resource_pattern (decl +:+ rest))
      ++ {| resource_type := "vpc"; resource_name := "vpc";
            resource_id := "module." +:+ "vpc"; file_path := "main.tf";
            is_module := true; module_source := Some src |}
         :: map (module_record "main.tf") ms.
Proof.
  intros src decl rest w. split.
  - apply (module_source_normalization w "main.tf" [] " " "vpc" " " " " " "
             " " "terraform-aws-modules" "vpc" "aws" rest); reflexivity.
  - apply (module_source_normalization w "main.tf" [] " " "vpc" " " " " " "
             " " "terraform-aws-modules" "vpc" "aws" rest); reflexivity.
Defined.

(** ** The statistics of a scan *)

Lemma records_of_type_cons t r rs :
  records_of_type t (r :: rs)
  = (if decide (resource_type r = t) then 1 else 0) + records_of_type t rs.
Proof. unfold records_of_type. rewrite filter_cons. by case_decide. Qed.

(** The dict after the counting loop has run over [rs], seen at one key. *)
Lemma foldl_count_type d rs t :
  foldl count_type d rs !! t
  = match d !! t, records_of_type t rs with
    | Some k, n => Some (k + n)
    | None, 0 => None
    | None, S n => Some (S n)
    end.
Proof.
  revert d. induction rs as [|r rs IH]; intros d.
  - change (records_of_type t []) with 0. simpl.
    destruct (d !! t); [f_equal; lia|done].
  - simpl. rewrite IH, records_of_type_cons. unfold count_type.
    destruct (decide (resource_type r = t)) as [->|Hne].
    + destruct (d !! t) as [k|] eqn:Hd.
      * rewrite lookup_insert_eq. f_equal. lia.
      * by rewrite lookup_insert_eq.
    + destruct (d !! resource_type r); by rewrite lookup_insert_ne.
Qed.

Lemma count_by_type_lookup rs t n :
  count_by_type rs !! t = Some n <-> 0 < n /\ n = records_of_type t rs.
Proof.
  unfold count_by_type. rewrite foldl_count_type, lookup_empty.
  destruct (records_of_type t rs) as [|k]; split.
  - done.
  - lia.
  - intros [= <-]. lia.
  - intros [_ ->]. done.
Qed.

Lemma records_of_type_pos t rs :
  0 < records_of_type t rs <-> t ∈ map resource_type rs.
Proof.
  induction rs as [|r rs IH].
  - simpl. split; [unfold records_of_type; simpl; lia|].
    by intros ?%elem_of_nil.
  - rewrite records_of_type_cons. simpl. rewrite elem_of_cons.
    case_decide; [|rewrite <- IH]; split; try lia; auto.
    intros [?|?]; [congruence|done].
Qed.

(** The sum of the values of a dict of counts. *)
Lemma sum_insert (d : gmap string nat) k v :
  map_fold (fun _ n acc => n + acc) 0 (<[k:=v]> d) + default 0 (d !! k)
  = map_fold (fun _ n acc => n + acc) 0 d + v.
Proof.
  destruct (d !! k) as [n|] eqn:Hd; simpl.
  - rewrite <- (insert_delete_id d k n) at 2 by done.
    rewrite <- (insert_delete_eq d).
    rewrite !map_fold_insert_L; [lia|intros; lia|apply lookup_delete_eq
                                |intros; lia|apply lookup_delete_eq].
  - rewrite map_fold_insert_L; [lia|intros; lia|done].
Qed.

Lemma sum_foldl_count_type d rs :
  map_fold (fun _ n acc => n + acc) 0 (foldl count_type d rs)
  = map_fold (fun _ n acc => n + acc) 0 d + length rs.
Proof.
  revert d. induction rs as [|r rs IH]; intros d; simpl; [lia|].
  rewrite IH. unfold count_type.
  pose proof (sum_insert d (resource_type r)) as Hsum.
  destruct (d !! resource_type r) as [n|]; simpl in Hsum.
  - specialize (Hsum (n + 1)). lia.
  - specialize (Hsum 1). lia.
Qed.

(** X1. In the result of a scan, [resource_types] has under a type name
    the number of records of that type, and has no entry for a type no
    record has: a count is never zero. *)
Theorem resource_types_counts_records (w : World) (dir : string)
    (out : list string) (t : string) (n : nat) :
  let a := project_resources (analyze_terraform_project w dir out) in
  resource_types a !! t = Some n
  <-> 0 < n /\ n = records_of_type t (resources a).
Proof. intros a. subst a. rewrite analyze_spec. apply count_by_type_lookup. Qed.

(** X2. The type names the scan returns are the keys of [resource_types],
    and they are the type names of the records. *)
Theorem returned_types_are_the_keys (w : World) (dir : string)
    (out : list string) :
  let a := analyze_terraform_project w dir out in
  returned_types a = dom (resource_types (project_resources a)) /\
  forall t, t ∈ returned_types a
            <-> exists r, In r (resources (project_resources a)) /\
                          resource_type r = t.
Proof.
  intros a. subst a. rewrite analyze_spec. simpl. split.
  - apply set_eq. intros t. rewrite elem_of_list_to_set, elem_of_dom.
    rewrite <- records_of_type_pos. unfold is_Some. split.
    + intros Hpos. eexists. by apply count_by_type_lookup.
    + intros [n [Hn Heq]%count_by_type_lookup]. by rewrite <- Heq.
  - intros t. rewrite elem_of_list_to_set, list_elem_of_In, in_map_iff.
    split; intros (r & ? & ?); by exists r.
Qed.

(** X3. The counts of [resource_types] add up to [resource_count], the
    number of records of the scan. *)
Theorem counts_add_up (w : World) (dir : string) (out : list string) :
  let a := project_resources (analyze_terraform_project w dir out) in
  map_fold (fun _ n acc => n + acc) 0 (resource_types a) = resource_count a.
Proof.
  intros a. subst a. rewrite analyze_spec. simpl. unfold count_by_type.
  by rewrite sum_foldl_count_type, map_fold_empty.
Qed.

Lemma records_of_type_perm t rs rs' :
  rs ≡ₚ rs' -> records_of_type t rs = records_of_type t rs'.
Proof. intros Hp. unfold records_of_type. by rewrite Hp. Qed.

Lemma count_by_type_perm rs rs' :
  rs ≡ₚ rs' -> count_by_type rs = count_by_type rs'.
Proof.
  intros Hp. apply map_eq. intros t. unfold count_by_type.
  by rewrite !foldl_count_type, (records_of_type_perm t rs rs').
Qed.

(** X4. The order in which [glob] lists the files does not matter for the
    statistics: two scans that find the same files with the same contents,
    in any order, give the same [resource_types], the same returned set,
    the same count, and the same records up to their order. *)
Theorem scan_order_is_irrelevant (w w' : World) (dir : string)
    (out out' : list string) :
  (forall path, read_text w' path = read_text w path) ->
  terraform_files w' dir ≡ₚ terraform_files w dir ->
  let a := analyze_terraform_project w dir out in
  let a' := analyze_terraform_project w' dir out' in
  resources (project_resources a') ≡ₚ resources (project_resources a) /\
  resource_count (project_resources a')
  = resource_count (project_resources a) /\
  resource_types (project_resources a')
  = resource_types (project_resources a) /\
  returned_types a' = returned_types a.
Proof.
  intros Hread Hfiles a a'. subst a a'. rewrite !analyze_spec. simpl.
  assert (flat_map (file_records w') (terraform_files w' dir)
          ≡ₚ flat_map (file_records w) (terraform_files w dir)) as Hp.
  { rewrite (flat_map_ext (file_records w') (file_records w))
      by (intros f; unfold file_records; by rewrite Hread).
    by apply Permutation_flat_map. }
  split_and!.
  - done.
  - by apply Permutation_length.
  - by apply count_by_type_perm.
  - by rewrite Hp.
Qed.

Lemma scan_order_is_irrelevant_witness :
  resource_types
    (project_resources (analyze_terraform_project world_ba "infra" []))
  = resource_types
      (project_resources (analyze_terraform_project world_ab "infra" [])).
Proof.
  apply (scan_order_is_irrelevant world_ab world_ba "infra" [] []).
  - reflexivity.
  - vm_compute. apply perm_swap.
Defined.

(** ** The fields of the records *)

Lemma split_single sep s :
  length (split sep s) < 2 -> split sep s = [s].
Proof.
  induction s as [|c s IH]; simpl; [done|].
  pose proof (split_not_nil sep s) as Hnil.
  destruct (Ascii.eqb c sep).
  - destruct (split sep s); [done|simpl; lia].
  - destruct (split sep s) as [|h [|h' t]]; [done| |simpl; lia].
    intros _. by injection (IH ltac:(simpl; lia)) as ->.
Qed.

Lemma split_pieces sep p s :
  all_chars p s = true ->
  Forall (fun x => all_chars p x = true
                   /\ all_chars (fun c => negb (Ascii.eqb c sep)) x = true)
         (split sep s).
Proof.
  induction s as [|c s IH]; simpl.
  - intros _. by repeat constructor.
  - intros [Hc Hs]%andb_prop. specialize (IH Hs).
    pose proof (split_not_nil sep s) as Hnil.
    destruct (Ascii.eqb c sep) eqn:Hsep.
    + by repeat constructor.
    + destruct (split sep s) as [|h t]; [done|].
      apply Forall_cons in IH as [[Hh1 Hh2] Ht]. constructor; [|done].
      simpl. by rewrite Hc, Hsep, Hh1, Hh2.
Qed.

(** The normalized name is one of the pieces of the source. *)
Lemma normalized_is_piece src : In (normalized src) (split slash src).
Proof.
  unfold normalized. destruct (Nat.leb_spec 2 (length (split slash src))).
  - destruct (lookup_lt_is_Some_2 (split slash src)
                (length (split slash src) - 2) ltac:(lia)) as [x Hx].
    rewrite Hx. simpl. by apply list_elem_of_lookup_2, list_elem_of_In in Hx.
  - rewrite split_single by done. by left.
Qed.

Lemma normalized_chars p src :
  all_chars p src = true ->
  all_chars p (normalized src) = true /\ no_slash (normalized src) = true.
Proof.
  intros Hp. pose proof (split_pieces slash p src Hp) as Hall.
  rewrite Forall_forall in Hall.
  by apply Hall, list_elem_of_In, normalized_is_piece.
Qed.

Lemma resource_match_tokens content m :
  In m (finditer resource_pattern content) ->
  exists T N, m_groups m = [T; N] /\ token T = true /\ token N = true.
Proof.
  intros (u & v & _ & _ & _ & Hr)%finditer_from_sound.
  apply resource_match_shape in Hr
    as (? & T & ? & N & ? & ? & ? & ? & ? & ? & ?).
  by exists T, N.
Qed.

Lemma module_match_tokens content m :
  In m (finditer module_pattern content) ->
  exists N src, m_groups m = [N; src] /\ token N = true /\ token src = true.
Proof.
  intros (u & r & w1 & N & w2 & body & w4 & w5 & src & ? & ? & ? & ? & ?
          & ? & ? & ? & ? & ? & ?)%module_matches_shape.
  by exists N, src.
Qed.

(** X5. Every record of a file carries the path it was asked for and a
    name that is not empty and has no double quote. A resource record has
    no module source and a type that is not empty and has no double quote.
    A module record has a source that is not empty and has no double
    quote, and a type with no slash and no double quote. *)
Theorem records_are_well_formed (w : World) (path : string)
    (out : list string) :
  Forall (fun r =>
            file_path r = path /\ token (resource_name r) = true /\
            if is_module r
            then exists src, module_source r = Some src /\ token src = true /\
                             no_slash (resource_type r) = true /\
                             all_chars not_dquote (resource_type r) = true
            else module_source r = None /\ token (resource_type r) = true)
         (parse_terraform_file w path out).1.
Proof.
  rewrite parse_file_spec. simpl. unfold file_records.
  destruct (read_text w path) as [e|content]; [constructor|].
  unfold records_of. apply Forall_app. split; apply Forall_forall.
  - intros r (m & <- & Hm)%list_elem_of_In%in_map_iff.
    apply resource_match_tokens in Hm as (T & N & Hg & HT & HN).
    unfold resource_record. rewrite Hg. by simpl.
  - intros r (m & <- & Hm)%list_elem_of_In%in_map_iff.
    apply module_match_tokens in Hm as (N & src & Hg & HN & Hsrc).
    unfold module_record. rewrite Hg. simpl. split_and!; [done..|].
    exists src. apply token_spec in Hsrc as Hsrc'.
    destruct (normalized_chars not_dquote src) as [? ?]; [apply Hsrc'|].
    by split_and!.
Qed.

(** X6. In the list a file gives, the resource records come before the
    module records, wherever the declarations stand in the text. *)
Theorem resources_come_before_modules (w : World) (path : string)
    (out : list string) (i j : nat) (r1 r2 : TerraformResource) :
  (parse_terraform_file w path out).1 !! i = Some r1 ->
  (parse_terraform_file w path out).1 !! j = Some r2 ->
  is_module r1 = true -> is_module r2 = false ->
  j < i.
Proof.
  rewrite parse_file_spec. simpl. unfold file_records.
  destruct (read_text w path) as [e|content]; [done|].
  unfold records_of. intros H1 H2 Hm1 Hm2.
  apply lookup_app_Some in H1 as [H1|[Hi H1]].
  { apply list_elem_of_lookup_2, list_elem_of_In, in_map_iff in H1
      as (m & <- & _). discriminate Hm1. }
  apply lookup_app_Some in H2 as [H2|[_ H2]].
  { apply lookup_lt_Some in H2. lia. }
  apply list_elem_of_lookup_2, list_elem_of_In, in_map_iff in H2
    as (m & <- & _). discriminate Hm2.
Qed.

Lemma resources_come_before_modules_witness :
  let text := "module " +:+ quoted "vpc" +:+ " { source = " +:+ quoted "a/b/c"
              +:+ " }" +:+ newline +:+ data_bucket in
  let w := world_of "infra" [("main.tf", text)] in
  map resource_id (parse_terraform_file w "main.tf" []).1
  = ["aws_s3_bucket.data"; "module.vpc"] /\ 0 < 1.
Proof.
  intros text w. split; [reflexivity|].
  apply (resources_come_before_modules w "main.tf" [] 1 0
           {| resource_type := "b"; resource_name := "vpc";
              resource_id := "module.vpc"; file_path := "main.tf";
              is_module := true; module_source := Some "a/b/c" |}
           {| resource_type := "aws_s3_bucket"; resource_name := "data";
              resource_id := "aws_s3_bucket.data"; file_path := "main.tf";
              is_module := false; module_source := None |}); reflexivity.
Defined.

(** X7. Lines 69 and 70 never raise and leave the list as it is. The type
    they give is a piece of the source and has no slash. When the source
    has a slash, it is the piece just before the last slash: the text
    before that slash if there is no other, the text between the last two
    slashes otherwise. *)
Theorem module_type_rule (src : string) (rs : list TerraformResource)
    (P C : string) :
  exists t,
    module_type src rs = (rs, inr t) /\
    In t (split slash src) /\ no_slash t = true /\
    (src = P +:+ "/" +:+ C -> no_slash C = true ->
     exists pieces, split slash P = pieces ++ [t]).
Proof.
  exists (normalized src). rewrite module_type_ok. split_and!.
  - done.
  - apply normalized_is_piece.
  - by apply (normalized_chars (fun _ => true)); induction src.
  - intros -> HC.
    destruct (split slash P) as [|x pieces _] eqn:HP using rev_ind.
    { by apply split_not_nil in HP. }
    exists pieces. f_equal. f_equal. unfold normalized.
    cbn [String.append]. unfold slash in *.
    rewrite split_app_sep, HP, (split_no_sep _ C) by done.
    rewrite !length_app. simpl length.
    destruct (Nat.leb_spec 2 (length pieces + 1 + 1)) as [_|]; [|lia].
    replace (length pieces + 1 + 1 - 2) with (length pieces) by lia.
    rewrite <- (assoc_L (++)), lookup_app_r by lia.
    by rewrite Nat.sub_diag.
Qed.

Lemma module_type_rule_witness :
  exists t,
    module_type "./modules/vpc" [] = ([], inr t) /\
    In t (split slash "./modules/vpc") /\ no_slash t = true /\
    exists pieces, split slash "./modules" = pieces ++ [t].
Proof.
  destruct (module_type_rule "./modules/vpc" [] "./modules" "vpc")
    as (t & Ht & Hin & Hns & Hlast).
  exists t. split_and!; [done..|]. apply Hlast; reflexivity.
Defined.

(** ** The helpers of the two other scripts *)

Lemma last_char_app_chr s c : last_char (s +:+ chr c) = Some c.
Proof.
  induction s as [|a s IH]; [done|]. cbn [String.append last_char].
  rewrite IH. by destruct s.
Qed.

(** X8. For a directory name that does not end in a slash,
    [get_terraform_files] asks [glob] for the two patterns made of the
    name, [/**/] and the extension, lists what matches [*.tf] before what
    matches [*.tf.json], and finds the same files when a slash is put
    after the name. *)
Theorem get_terraform_files_patterns (w : World) (dir : string) (c : ascii) :
  last_char dir = Some c -> c <> "/"%char ->
  get_terraform_files w dir
  = glob_paths w (dir +:+ "/**/*.tf")
    ++ glob_paths w (dir +:+ "/**/*.tf.json") /\
  get_terraform_files w (dir +:+ "/") = get_terraform_files w dir.
Proof.
  intros Hlast Hc.
  assert (path_join dir "**" = dir +:+ "/**") as Hjoin.
  { unfold path_join. rewrite Hlast.
    destruct c as [[] [] [] [] [] [] [] []]; try done. }
  assert (path_join (dir +:+ "/") "**" = dir +:+ "/**") as Hjoin'.
  { unfold path_join. change "/" with (chr "/"%char) at 1.
    rewrite last_char_app_chr. by rewrite text_app_assoc. }
  assert (forall ext, path_join (dir +:+ "/**") ("*" +:+ ext)
                      = dir +:+ "/**/*" +:+ ext) as Hext.
  { intros ext. unfold path_join. cbn [String.append].
    change "/**" with ("/*" +:+ chr "*"%char).
    rewrite <- text_app_assoc, last_char_app_chr.
    by rewrite !text_app_assoc. }
  unfold get_terraform_files. cbn [flat_map].
  change "*.tf" with ("*" +:+ ".tf").
  change "*.tf.json" with ("*" +:+ ".tf.json").
  rewrite Hjoin', Hjoin, !Hext, (right_id_L [] (++)). done.
Qed.

Lemma get_terraform_files_patterns_witness :
  get_terraform_files world_ab ("infra" +:+ "/")
  = get_terraform_files world_ab "infra".
Proof.
  apply (get_terraform_files_patterns world_ab "infra" "a"%char);
    [reflexivity|discriminate].
Defined.

Lemma dict_get_set p k v d :
  dict_get p (dict_set k v d)
  = if String.eqb k p then Some v else dict_get p d.
Proof.
  induction d as [|[k' v'] d IH]; simpl; [done|].
  destruct (String.eqb_spec k' k) as [->|Hk]; simpl.
  - by destruct (String.eqb k p).
  - rewrite IH. destruct (String.eqb_spec k' p) as [->|]; [|done].
    by destruct (String.eqb_spec k p).
Qed.

Lemma dict_set_keys k v d :
  map fst (dict_set k v d)
  = if bool_decide (k ∈ map fst d) then map fst d else map fst d ++ [k].
Proof.
  induction d as [|[k' v'] d IH]; simpl; [done|].
  destruct (String.eqb_spec k' k) as [->|Hk]; simpl.
  - rewrite bool_decide_eq_true_2; [done|by left].
  - rewrite IH. destruct (bool_decide_reflect (k ∈ map fst d)) as [Hin|Hin].
    + rewrite bool_decide_eq_true_2; [done|by right].
    + rewrite bool_decide_eq_false_2; [done|].
      intros [?|?]%elem_of_cons; congruence.
Qed.

Lemma dict_get_None p d : p ∉ map fst d -> dict_get p d = None.
Proof.
  induction d as [|[k v] d IH]; simpl; [done|].
  intros Hp. destruct (String.eqb_spec k p) as [->|].
  - destruct Hp. by left.
  - apply IH. intros ?. apply Hp. by right.
Qed.

Lemma read_errors_cons w q paths :
  read_errors w (q :: paths)
  = match read_text w q with
    | inr _ => []
    | inl e => ["Error reading file " +:+ q +:+ ": " +:+ exn_msg e]
    end ++ read_errors w paths.
Proof. reflexivity. Qed.

Lemma read_files_spec w paths d out p :
  NoDup (map fst d) ->
  NoDup (map fst (read_files w paths d out).1) /\
  (read_files w paths d out).2 = out ++ read_errors w paths /\
  dict_get p (read_files w paths d out).1
  = if bool_decide (p ∈ paths)
    then match read_text w p with
         | inr content => Some content
         | inl _ => dict_get p d
         end
    else dict_get p d.
Proof.
  revert d out. induction paths as [|q paths IH]; intros d out Hd.
  - cbn [read_files]. change (read_errors w []) with (@nil string).
    by rewrite (right_id_L [] (++)).
  - assert (forall x : option string,
              (if bool_decide (p ∈ q :: paths) then x else dict_get p d)
              = if String.eqb q p then x
                else if bool_decide (p ∈ paths) then x else dict_get p d)
      as Hmem.
    { intros x. destruct (String.eqb_spec q p) as [->|Hne].
      - rewrite bool_decide_eq_true_2; [done|by left].
      - destruct (bool_decide_reflect (p ∈ paths)) as [Hin|Hin].
        + rewrite bool_decide_eq_true_2; [done|by right].
        + rewrite bool_decide_eq_false_2; [done|].
          intros [?|?]%elem_of_cons; congruence. }
    rewrite Hmem, read_errors_cons. clear Hmem. cbn [read_files].
    destruct (read_text w q) as [e|content] eqn:Hq.
    + destruct (IH d (out ++ ["Error reading file " +:+ q +:+ ": "
                              +:+ exn_msg e]) Hd) as (Hnd & Hout & Hget).
      rewrite Hout, Hget.
      split_and!; [done|by rewrite (assoc_L (++))|].
      destruct (String.eqb_spec q p) as [->|Hne]; [|done].
      rewrite Hq. by destruct (bool_decide (p ∈ paths)).
    + assert (NoDup (map fst (dict_set q content d))) as Hd'.
      { rewrite dict_set_keys.
        destruct (bool_decide_reflect (q ∈ map fst d)) as [Hin|Hin]; [done|].
        apply NoDup_app. split_and!; [done| |apply NoDup_singleton].
        intros x Hx ->%list_elem_of_singleton. done. }
      destruct (IH (dict_set q content d) out Hd') as (Hnd & Hout & Hget).
      rewrite Hout, Hget. split_and!; [done..|]. rewrite dict_get_set.
      destruct (String.eqb_spec q p) as [->|Hne]; [|done].
      rewrite Hq. by destruct (bool_decide (p ∈ paths)).
Qed.

(** X9. The dict [read_file_contents] returns has no key twice; under a
    path of the list that can be read it has the content of the file, and
    it has no entry for a path that cannot be read or that is not in the
    list. One line is printed for each path that cannot be read, in the
    order of the list. *)
Theorem read_file_contents_lookup (w : World) (file_paths : list string)
    (out : list string) (p : string) :
  let result := read_file_contents w file_paths out in
  NoDup (map fst result.1) /\
  result.2 = out ++ read_errors w file_paths /\
  dict_get p result.1
  = if bool_decide (p ∈ file_paths)
    then match read_text w p with
         | inr content => Some content
         | inl _ => None
         end
    else None.
Proof. apply (read_files_spec w file_paths [] out p). constructor. Qed.

Lemma dict_set_new k v d : k ∉ map fst d -> dict_set k v d = d ++ [(k, v)].
Proof.
  induction d as [|[k' v'] d IH]; simpl; [done|].
  intros Hk. destruct (String.eqb_spec k' k) as [->|_].
  - destruct Hk. by left.
  - rewrite IH; [done|]. intros ?. apply Hk. by right.
Qed.

Lemma readable_items_cons w q paths :
  readable_items w (q :: paths)
  = match read_text w q with
    | inr content => [(q, content)]
    | inl _ => []
    end ++ readable_items w paths.
Proof. reflexivity. Qed.

Lemma read_files_nodup w paths d out :
  NoDup paths -> (forall p, p ∈ paths -> p ∉ map fst d) ->
  (read_files w paths d out).1 = d ++ readable_items w paths.
Proof.
  revert d out. induction paths as [|q paths IH]; intros d out Hnd Hnew.
  - cbn [read_files].
    change (readable_items w []) with (@nil (string * string)).
    by rewrite (right_id_L [] (++)).
  - apply NoDup_cons in Hnd as [Hq Hnd].
    rewrite readable_items_cons. cbn [read_files].
    destruct (read_text w q) as [e|content].
    + apply IH; [done|]. intros p Hp. apply Hnew. by right.
    + rewrite dict_set_new by (apply Hnew; by left).
      rewrite IH, <- (assoc_L (++)); [done..|].
      intros p Hp. rewrite map_app. simpl.
      intros [Hin|Hin]%elem_of_app.
      * revert Hin. apply Hnew. by right.
      * apply list_elem_of_singleton in Hin as ->. done.
Qed.

Lemma add_file_blocks_spec text items :
  add_file_blocks text items = text +:+ blocks_of items.
Proof.
  revert text. induction items as [|[p c] items IH]; intros text; simpl.
  - by rewrite text_app_nil_r.
  - by rewrite IH, text_app_assoc.
Qed.

(** X10. For paths that are all different, as [glob] lists them, the dict
    [read_file_contents] returns has one item for each path that can be
    read, with the content of the file, in the order of the list, and
    nothing for a path that cannot be read. *)
Theorem read_file_contents_items (w : World) (file_paths : list string)
    (out : list string) :
  NoDup file_paths ->
  read_file_contents w file_paths out
  = (readable_items w file_paths, out ++ read_errors w file_paths).
Proof.
  intros Hnd. unfold read_file_contents.
  destruct (read_files_spec w file_paths [] out EmptyString) as (_ & Hout & _);
    [constructor|].
  pose proof (read_files_nodup w file_paths [] out Hnd) as Hitems.
  rewrite (left_id_L [] (++)) in Hitems.
  destruct (read_files w file_paths [] out) as [items printed_lines].
  cbn [fst snd] in *. rewrite Hout, Hitems; [done|].
  intros p _. apply not_elem_of_nil.
Qed.

Lemma read_file_contents_items_witness :
  read_file_contents world_with_missing ["a.tf"; "gone.tf"; "b.tf"] []
  = ([("a.tf", logs_and_vpc); ("b.tf", data_bucket)],
     ["Error reading file gone.tf: No such file or directory"]).
Proof.
  rewrite (read_file_contents_items world_with_missing
             ["a.tf"; "gone.tf"; "b.tf"] []).
  - reflexivity.
  - apply (bool_decide_unpack (NoDup ["a.tf"; "gone.tf"; "b.tf"])).
    vm_compute. exact I.
Defined.

(** X11. The text sent for analysis is the text built before the loop
    followed by one block for each file that could be read, in the order
    of the paths; a file that could not be read leaves nothing in it.
    With no file read, the text is left as it was. *)
Theorem file_blocks_of_the_files_read (w : World) (file_paths : list string)
    (out : list string) (text : string) :
  NoDup file_paths ->
  add_file_blocks text (read_file_contents w file_paths out).1
  = text +:+ blocks_of (readable_items w file_paths) /\
  (Forall (fun p => exists e, read_text w p = inl e) file_paths ->
   add_file_blocks text (read_file_contents w file_paths out).1 = text).
Proof.
  intros Hnd. rewrite add_file_blocks_spec.
  assert ((read_file_contents w file_paths out).1
          = readable_items w file_paths) as ->.
  { unfold read_file_contents.
    rewrite (read_files_nodup w file_paths [] out Hnd).
    - apply (left_id_L [] (++)).
    - intros p _. apply not_elem_of_nil. }
  split; [done|]. intros Hall.
  assert (readable_items w file_paths = []) as ->.
  { clear Hnd. induction Hall as [|p ps [e He] _ IH]; [done|].
    by rewrite readable_items_cons, He, IH. }
  apply text_app_nil_r.
Qed.

Lemma file_blocks_of_the_files_read_witness :
  add_file_blocks EmptyString
    (read_file_contents world_with_missing ["gone.tf"; "b.tf"] []).1
  = newline +:+ "--- File: b.tf ---" +:+ newline +:+ data_bucket +:+ newline.
Proof.
  destruct (file_blocks_of_the_files_read world_with_missing
              ["gone.tf"; "b.tf"] [] EmptyString) as [Hblocks _].
  - apply (bool_decide_unpack (NoDup ["gone.tf"; "b.tf"])).
    vm_compute. exact I.
  - rewrite Hblocks. reflexivity.
Defined.

(** ** The reply of the crew *)

Section Search.
Variable matcher : string -> option (string * list string).

(** The search goes over a piece of text at no offset of which the
    pattern matches. *)
Lemma search_from_skip pre s pos :
  (forall u v, pre = u +:+ v -> nonempty v = true ->
               matcher (v +:+ s) = None) ->
  search_from matcher pos (pre +:+ s)
  = search_from matcher (pos + String.length pre) s.
Proof.
  revert pos. induction pre as [|c pre IH]; intros pos Hfail.
  - simpl. by rewrite Nat.add_0_r.
  - cbn [String.append search_from String.length].
    pose proof (Hfail EmptyString (String c pre) eq_refl eq_refl) as Hhere.
    cbn [String.append] in Hhere. rewrite Hhere, IH.
    + f_equal. lia.
    + intros u v -> Hv. by apply (Hfail (String c u) v).
Qed.

Lemma search_from_none s pos :
  (forall u v, s = u +:+ v -> matcher v = None) ->
  search_from matcher pos s = None.
Proof.
  revert pos. induction s as [|c s IH]; intros pos Hfail.
  - simpl. by rewrite (Hfail EmptyString EmptyString).
  - cbn [search_from]. rewrite (Hfail EmptyString (String c s)) by done.
    apply IH. intros u v ->. by apply (Hfail (String c u) v).
Qed.
End Search.

(** A lazy run up to a closing bracket stops at the first one. *)
Lemma lazy_bracket s m r :
  lazy not_newline (strip_prefix (chr rbracket)) s = Some (m, r) ->
  s = m +:+ chr rbracket +:+ r /\
  all_chars (fun c => not_newline c && negb (Ascii.eqb c rbracket)) m = true.
Proof.
  revert m r. induction s as [|c s IH]; intros m r; cbn [lazy].
  - done.
  - destruct (strip_prefix (chr rbracket) (String c s)) as [r'|] eqn:Hk.
    + intros [= <- <-]. apply strip_prefix_Some in Hk. by rewrite Hk.
    + destruct (not_newline c) eqn:Hc; [|done].
      destruct (lazy _ _ s) as [[m' r']|] eqn:Hl; [|done].
      intros [= <- <-]. destruct (IH _ _ eq_refl) as [-> Hm'].
      split; [done|]. cbn [all_chars]. rewrite Hc, Hm'.
      simpl in Hk. destruct (Ascii.eqb_spec "]"%char c) as [<-|Hne]; [done|].
      by destruct (Ascii.eqb_spec c rbracket) as [->|].
Qed.

Lemma lazy_first content rest :
  all_chars (fun c => not_newline c && negb (Ascii.eqb c rbracket)) content
  = true ->
  lazy not_newline (strip_prefix (chr rbracket))
       (content +:+ chr rbracket +:+ rest)
  = Some (content, rest).
Proof.
  induction content as [|c content IH]; intros Hall.
  - done.
  - cbn [all_chars] in Hall.
    apply andb_prop in Hall as [[Hc Hb]%andb_prop Hall].
    cbn [String.append lazy]. rewrite Hc, IH by done.
    unfold chr at 1. cbn [strip_prefix].
    destruct (Ascii.eqb_spec rbracket c) as [<-|_]; [done|done].
Qed.

Lemma run_array_shape s m g :
  run_array s = Some (m, g) ->
  exists content r,
    s = chr lbracket +:+ content +:+ chr rbracket +:+ r /\
    m = chr lbracket +:+ content +:+ chr rbracket /\ g = [content] /\
    all_chars (fun c => not_newline c && negb (Ascii.eqb c rbracket)) content
    = true.
Proof.
  unfold run_array.
  destruct (strip_prefix (chr lbracket) s) as [s1|] eqn:Hs; [|done].
  destruct (lazy _ _ s1) as [[content r]|] eqn:Hl; [|done].
  intros [= <- <-]. apply strip_prefix_Some in Hs as ->.
  apply lazy_bracket in Hl as [-> Hall]. by exists content, r.
Qed.

Lemma run_array_content content rest :
  all_chars (fun c => not_newline c && negb (Ascii.eqb c rbracket)) content
  = true ->
  run_array (chr lbracket +:+ content +:+ chr rbracket +:+ rest)
  = Some (chr lbracket +:+ content +:+ chr rbracket, [content]).
Proof.
  intros Hall. unfold run_array. rewrite strip_prefix_app.
  by rewrite lazy_first.
Qed.

(** Without an opening brace in the reply, the second [try] gives
    nothing. *)
Lemma no_brace_no_object lib result :
  all_chars (fun c => negb (Ascii.eqb c lbrace)) result = true ->
  resources_of_object lib result = None.
Proof.
  intros Hall. unfold resources_of_object, re_search.
  rewrite search_from_none; [done|]. intros u v ->.
  destruct (run json_pattern v) as [[m g]|] eqn:Hr; [|done].
  apply run_sound in Hr as [(m' & -> & _) [r ->]].
  revert Hall. rewrite !all_chars_app. simpl. by rewrite andb_false_r.
Qed.

Section Strip.
Variable p : ascii -> bool.
Implicit Types (s x l r : string).

Lemma drop_while_all s : all_chars p s = true -> drop_while p s = EmptyString.
Proof.
  induction s as [|c s IH]; simpl; [done|]. intros [-> Hs]%andb_prop. auto.
Qed.

Lemma rstrip_all s : all_chars p s = true -> rstrip p s = EmptyString.
Proof.
  induction s as [|c s IH]; simpl; [done|].
  intros [-> Hs]%andb_prop. by rewrite IH.
Qed.

Lemma rstrip_app_all x r :
  all_chars p r = true -> rstrip p (x +:+ r) = rstrip p x.
Proof.
  intros Hr. induction x as [|c x IH]; cbn [String.append rstrip].
  - by apply rstrip_all.
  - by rewrite IH.
Qed.

Lemma rstrip_keep x :
  match last_char x with Some c => negb (p c) | None => true end = true ->
  rstrip p x = x.
Proof.
  induction x as [|c x IH]; [done|]. cbn [last_char rstrip].
  destruct x as [|d x].
  - simpl. intros Hc%negb_true_iff. by rewrite Hc.
  - intros Hlast. by rewrite IH.
Qed.

(** What [strip] gives neither starts nor ends with a character of the
    class. *)
Lemma rstrip_last s :
  match last_char (rstrip p s) with Some c => negb (p c) | None => true end
  = true.
Proof.
  induction s as [|c s IH]; [done|]. cbn [rstrip].
  destruct (rstrip p s) as [|d t] eqn:Ht.
  - destruct (p c) eqn:Hc; [done|]. simpl. by rewrite Hc.
  - done.
Qed.

Lemma rstrip_stops s : stops p s = true -> stops p (rstrip p s) = true.
Proof.
  destruct s as [|c s]; [done|]. cbn [rstrip stops]. intros Hc.
  destruct (rstrip p s); [|done].
  apply negb_true_iff in Hc. rewrite Hc. simpl. by rewrite Hc.
Qed.

Lemma drop_while_stops s : stops p (drop_while p s) = true.
Proof.
  induction s as [|c s IH]; simpl; [done|].
  destruct (p c) eqn:Hc; [done|]. simpl. by rewrite Hc.
Qed.

Lemma strip_stripped s : stripped p (strip p s) = true.
Proof.
  unfold stripped, strip.
  by rewrite rstrip_stops, rstrip_last by apply drop_while_stops.
Qed.

(** [strip] only removes characters. *)
Lemma drop_while_chars q s :
  all_chars q s = true -> all_chars q (drop_while p s) = true.
Proof.
  induction s as [|c s IH]; simpl; [done|]. intros [Hc Hs]%andb_prop.
  destruct (p c); [auto|]. simpl. by rewrite Hc, Hs.
Qed.

Lemma rstrip_chars q s :
  all_chars q s = true -> all_chars q (rstrip p s) = true.
Proof.
  induction s as [|c s IH]; simpl; [done|]. intros [Hc Hs]%andb_prop.
  specialize (IH Hs). destruct (rstrip p s) as [|d t].
  - destruct (p c); [done|]. simpl. by rewrite Hc.
  - change (q c && all_chars q (String d t) = true). by rewrite Hc, IH.
Qed.

Lemma strip_chars_kept q s :
  all_chars q s = true -> all_chars q (strip p s) = true.
Proof. intros Hs. by apply rstrip_chars, drop_while_chars. Qed.

(** [strip] gives back a stripped text that stands between characters of
    the class. *)
Lemma strip_wrapped l x r :
  all_chars p l = true -> all_chars p r = true -> stripped p x = true ->
  strip p (l +:+ x +:+ r) = x.
Proof.
  unfold stripped, strip. intros Hl Hr [Hfirst Hlast]%andb_prop.
  destruct x as [|c x].
  - cbn [String.append].
    rewrite drop_while_all by (by rewrite all_chars_app, Hl, Hr).
    done.
  - rewrite (drop_while_app p l) by done.
    rewrite rstrip_app_all by done. by apply rstrip_keep.
Qed.
End Strip.

Lemma quoted_plain x :
  all_chars plain_char x = true ->
  all_chars (fun c => negb (Ascii.eqb c comma)) (quoted x) = true /\
  all_chars (fun c => not_newline c && negb (Ascii.eqb c rbracket)) (quoted x)
  = true.
Proof.
  intros Hx. unfold quoted. rewrite !all_chars_app. simpl.
  rewrite !andb_true_r.
  split; (eapply all_chars_impl; [|exact Hx]); unfold plain_char; intros c;
    intros [[H1 H2]%andb_prop H3]%andb_prop; by rewrite ?H1, ?H2, ?H3.
Qed.

(** The items written as the content of an array come back from the split
    and the strip. *)
Lemma render_items_round_trip lead xs :
  xs <> [] -> Forall (fun x => plain_item x = true) xs ->
  all_chars (fun c => Ascii.eqb c " "%char) lead = true ->
  map (strip strip_chars) (split comma (lead +:+ render_items xs)) = xs /\
  all_chars (fun c => not_newline c && negb (Ascii.eqb c rbracket))
            (render_items xs) = true.
Proof.
  intros Hne Hall. revert lead.
  induction Hall as [|x xs [Hplain Hstripped]%andb_prop Hall IH];
    intros lead Hlead; [done|].
  assert (all_chars strip_chars lead = true) as Hlead'.
  { revert Hlead. apply all_chars_impl. intros c ->%Ascii.eqb_eq. done. }
  assert (all_chars (fun c => negb (Ascii.eqb c comma)) lead = true) as Hlead''.
  { revert Hlead. apply all_chars_impl. intros c ->%Ascii.eqb_eq. done. }
  destruct (quoted_plain x Hplain) as [Hq1 Hq2].
  assert (strip strip_chars (lead +:+ quoted x) = x) as Hstrip.
  { unfold quoted. rewrite <- text_app_assoc.
    rewrite <- (text_app_assoc (lead +:+ chr dquote)).
    rewrite text_app_assoc.
    apply (strip_wrapped strip_chars (lead +:+ chr dquote) x (chr dquote));
      [|done..]. by rewrite all_chars_app, Hlead'. }
  destruct xs as [|y xs].
  - cbn [render_items]. split; [|done].
    rewrite split_no_sep by (by rewrite all_chars_app, Hlead'', Hq1).
    simpl. by rewrite Hstrip.
  - change (render_items (x :: y :: xs))
      with (quoted x +:+ ", " +:+ render_items (y :: xs)).
    destruct (IH ltac:(done) " " eq_refl) as [IHitems IHchars].
    split.
    + rewrite <- text_app_assoc.
      change (", " +:+ render_items (y :: xs))
        with (String comma (" " +:+ render_items (y :: xs))).
      rewrite split_app_sep, map_app, IHitems.
      rewrite split_no_sep by (by rewrite all_chars_app, Hlead'', Hq1).
      simpl. by rewrite Hstrip.
    + rewrite !all_chars_app, Hq2, IHchars. done.
Qed.

(** Where the first opening bracket of the reply starts a bracketed text
    of one line, the last resort gives the stripped pieces of that text. *)
Lemma items_of_array_first pre content post :
  all_chars (fun c => negb (Ascii.eqb c lbracket)) pre = true ->
  all_chars (fun c => not_newline c && negb (Ascii.eqb c rbracket)) content
  = true ->
  items_of_array (pre +:+ chr lbracket +:+ content +:+ chr rbracket +:+ post)
  = Some (map (strip strip_chars) (split comma content)).
Proof.
  intros Hpre Hcontent. unfold items_of_array, re_search.
  rewrite search_from_skip.
  - destruct (chr lbracket +:+ content +:+ chr rbracket +:+ post)
      as [|c s] eqn:Hs; [done|].
    cbn [search_from]. rewrite <- Hs, run_array_content by done. done.
  - intros u [|c v] -> Hv; [done|]. rewrite all_chars_app in Hpre.
    apply andb_prop in Hpre as [_ [Hc _]%andb_prop].
    unfold run_array. cbn [String.append strip_prefix chr].
    destruct (Ascii.eqb_spec lbracket c) as [<-|_]; done.
Qed.

Lemma items_of_array_shape result items :
  items_of_array result = Some items ->
  items <> [] /\
  Forall (fun x => stripped strip_chars x = true
                   /\ all_chars plain_char x = true) items.
Proof.
  unfold items_of_array, re_search.
  destruct (search_from run_array 0 result) as [m|] eqn:Hm; [|done].
  assert (exists s, run_array s = Some (m_text m, m_groups m))
    as (s & (content & r & _ & _ & Hg & Hall)%run_array_shape).
  { revert Hm. generalize 0. induction result as [|c s IH]; intros pos;
      cbn [search_from].
    - destruct (run_array EmptyString) as [[t g]|] eqn:Hr; [|done].
      intros [= <-]. by exists EmptyString.
    - destruct (run_array (String c s)) as [[t g]|] eqn:Hr.
      + intros [= <-]. by exists (String c s).
      + apply IH. }
  unfold group. rewrite Hg. simpl. intros [= <-]. split.
  - pose proof (split_not_nil comma content). by destruct (split comma content).
  - pose proof (split_pieces comma _ content Hall) as Hpieces.
    apply Forall_forall. intros x (piece & <- & Hin)%list_elem_of_In%in_map_iff.
    rewrite Forall_forall in Hpieces.
    destruct (Hpieces piece) as [H1 H2]; [by apply list_elem_of_In|].
    split; [apply strip_stripped|]. apply strip_chars_kept.
    clear -H1 H2. induction piece as [|c piece IH]; [done|].
    simpl in *. apply andb_prop in H1 as [[Hn Hb]%andb_prop H1].
    apply andb_prop in H2 as [Hc H2]. unfold plain_char at 1.
    by rewrite Hn, Hb, Hc, IH.
Qed.

(** X12. When the reply does not validate and has no opening brace, and
    its first opening bracket starts a list of items between double
    quotes, with commas between them, the function returns these items,
    for items that have no comma, closing bracket or new line in them and
    neither a space nor a quote at their ends. Nothing is printed. *)
Theorem array_reply_round_trip (lib : Library) (pre post e : string)
    (items : list string) (out : list string) :
  let result :=
    pre +:+ chr lbracket +:+ render_items items +:+ chr rbracket +:+ post in
  model_validate_json lib result = inl e ->
  all_chars (fun c => negb (Ascii.eqb c lbrace)) result = true ->
  all_chars (fun c => negb (Ascii.eqb c lbracket)) pre = true ->
  items <> [] -> Forall (fun x => plain_item x = true) items ->
  parse_crew_result lib result out = (VList (map VStr items), out).
Proof.
  intros result Hinvalid Hbrace Hpre Hne Hitems.
  destruct (render_items_round_trip EmptyString items Hne Hitems eq_refl)
    as [Hround Hchars].
  unfold parse_crew_result. rewrite Hinvalid, no_brace_no_object by done.
  subst result. rewrite items_of_array_first by done.
  cbn [String.append] in Hround. by rewrite Hround.
Qed.

Lemma array_reply_round_trip_witness :
  parse_crew_result failing_library
    ("The resources are: " +:+ chr lbracket
     +:+ render_items ["aws_s3_bucket"; "rds-aurora-postgres"; "vpc"]
     +:+ chr rbracket +:+ ".") []
  = (VList [VStr "aws_s3_bucket"; VStr "rds-aurora-postgres"; VStr "vpc"], []).
Proof.
  apply (array_reply_round_trip failing_library "The resources are: " "."
           "Invalid JSON" ["aws_s3_bucket"; "rds-aurora-postgres"; "vpc"] []);
    try reflexivity; [done|by repeat constructor].
Defined.

(** X13. When the reply does not validate and the second [try] gives
    nothing, the function returns a list of strings. Either the reply has
    no bracketed text of one line: the list is empty and two lines are
    printed, the error and the raw reply. Or the list is not empty, even
    for an empty array, nothing is printed, and no item starts or ends
    with a space or a quote or holds a comma, a closing bracket or a new
    line. *)
Theorem last_resort_gives_strings (lib : Library) (result e : string)
    (out : list string) :
  model_validate_json lib result = inl e ->
  resources_of_object lib result = None ->
  (items_of_array result = None /\
   parse_crew_result lib result out
   = (VList [], out ++ ["Failed to parse result: " +:+ e;
                        "Raw result: " +:+ result])) \/
  (exists items,
     items <> [] /\
     Forall (fun x => stripped strip_chars x = true
                      /\ all_chars plain_char x = true) items /\
     parse_crew_result lib result out = (VList (map VStr items), out)).
Proof.
  intros Hinvalid Hobject. unfold parse_crew_result.
  rewrite Hinvalid, Hobject.
  destruct (items_of_array result) as [items|] eqn:Hitems; [right|by left].
  exists items. by destruct (items_of_array_shape _ _ Hitems).
Qed.

Lemma last_resort_gives_strings_witness :
  parse_crew_result failing_library ("none: " +:+ chr lbracket
                                     +:+ chr rbracket) []
  = (VList [VStr EmptyString], []).
Proof.
  destruct (last_resort_gives_strings failing_library
              ("none: " +:+ chr lbracket +:+ chr rbracket) "Invalid JSON" [])
    as [[Hnone _]|(items & _ & _ & _)]; [reflexivity..|discriminate Hnone|].
  reflexivity.
Defined.

(** X14. A reply that does not validate and has neither a closing brace
    nor a closing bracket gives the empty list, and the error and the raw
    reply are printed. *)
Theorem unparsable_reply_gives_nothing (lib : Library) (result e : string)
    (out : list string) :
  model_validate_json lib result = inl e ->
  all_chars (fun c => negb (Ascii.eqb c rbrace)) result = true ->
  all_chars (fun c => negb (Ascii.eqb c rbracket)) result = true ->
  parse_crew_result lib result out
  = (VList [], out ++ ["Failed to parse result: " +:+ e;
                       "Raw result: " +:+ result]).
Proof.
  intros Hinvalid Hbrace Hbracket. unfold parse_crew_result.
  rewrite Hinvalid.
  assert (resources_of_object lib result = None) as ->.
  { unfold resources_of_object, re_search.
    rewrite search_from_none; [done|]. intros u v ->.
    destruct (run json_pattern v) as [[m g]|] eqn:Hr; [|done].
    apply run_sound in Hr as [(m' & -> & w & m'' & _ & -> & ? & -> & _)
                              [r ->]].
    revert Hbrace. rewrite !all_chars_app. simpl.
    by rewrite !andb_false_r. }
  assert (items_of_array result = None) as ->; [|done].
  unfold items_of_array, re_search.
  rewrite search_from_none; [done|]. intros u v ->.
  destruct (run_array v) as [[m g]|] eqn:Hr; [|done].
  apply run_array_shape in Hr as (content & r & -> & _).
  revert Hbracket. rewrite !all_chars_app. simpl.
  by rewrite !andb_false_r.
Qed.

Lemma unparsable_reply_gives_nothing_witness :
  parse_crew_result failing_library "I could not read the files." []
  = (VList [],
     ["Failed to parse result: Invalid JSON";
      "Raw result: I could not read the files."]).
Proof.
  apply (unparsable_reply_gives_nothing failing_library
           "I could not read the files." "Invalid JSON" []); reflexivity.
Defined.

(** The search for a flat object finds the first opening brace that is
    followed by a closing brace with no brace in between. *)
Lemma search_flat_object pre body post :
  all_chars (fun c => negb (Ascii.eqb c lbrace)) pre = true ->
  all_chars not_brace body = true ->
  re_search (run json_pattern)
            (pre +:+ chr lbrace +:+ body +:+ chr rbrace +:+ post)
  = Some (Match (String.length pre) (chr lbrace +:+ body +:+ chr rbrace) []).
Proof.
  intros Hpre Hbody. unfold re_search. rewrite search_from_skip.
  - assert (run json_pattern (chr lbrace +:+ body +:+ chr rbrace +:+ post)
            = Some (chr lbrace +:+ body +:+ chr rbrace +:+ EmptyString, []))
      as Hrun.
    { unfold json_pattern. apply run_lit.
      apply run_star_last; [done| |].
      - by apply (run_lit (chr rbrace) [] post EmptyString []).
      - intros [|c x] y Heq Hx Hall; [done|]. cbn [String.append chr] in Heq.
        injection Heq as <- _. done. }
    destruct (chr lbrace +:+ body +:+ chr rbrace +:+ post) as [|c s] eqn:Hs;
      [done|].
    cbn [search_from]. rewrite Hrun. by rewrite text_app_nil_r.
  - intros u [|c v] -> Hv; [done|]. rewrite all_chars_app in Hpre.
    apply andb_prop in Hpre as [_ [Hc _]%andb_prop].
    destruct (run json_pattern _) as [[m g]|] eqn:Hr; [|done].
    apply run_sound in Hr as [(m' & -> & _) [r Heq]].
    cbn [String.append chr] in Heq. injection Heq as -> _. done.
Qed.

(** X15. When the reply does not validate, the text from its first
    opening brace to the next closing brace, with no brace in between, is
    what is loaded; when it loads to a dict with the key [resources], the
    function returns the value under that key as it is, a list or not,
    and prints nothing. *)
Theorem object_reply_is_returned (lib : Library) (pre body post e : string)
    (d : list (string * value)) (v : value) (out : list string) :
  let result := pre +:+ chr lbrace +:+ body +:+ chr rbrace +:+ post in
  model_validate_json lib result = inl e ->
  all_chars (fun c => negb (Ascii.eqb c lbrace)) pre = true ->
  all_chars not_brace body = true ->
  json_loads lib (chr lbrace +:+ body +:+ chr rbrace) = inr d ->
  items_get "resources" d = Some v ->
  parse_crew_result lib result out = (v, out).
Proof.
  intros result Hinvalid Hpre Hbody Hloads Hkey.
  unfold parse_crew_result, resources_of_object. rewrite Hinvalid.
  subst result. rewrite search_flat_object by done.
  cbn [group m_text]. by rewrite Hloads, Hkey.
Qed.

Lemma object_reply_is_returned_witness :
  parse_crew_result number_library
    ("Result: " +:+ chr lbrace +:+ quoted "resources" +:+ ": 3"
     +:+ chr rbrace +:+ " and " +:+ chr lbracket +:+ quoted "vpc"
     +:+ chr rbracket) []
  = (VNumber "3", []).
Proof.
  apply (object_reply_is_returned number_library "Result: "
           (quoted "resources" +:+ ": 3")
           (" and " +:+ chr lbracket +:+ quoted "vpc" +:+ chr rbracket)
           "Invalid JSON" [("resources", VNumber "3")] (VNumber "3") []);
    reflexivity.
Defined.
